(** * PoS simulator: metrics, consensus selectors, churn and the simulation loop

    A shallow embedding of [pos_simulator_python/src/{parameters,utils,simulator}.py],
    of [analysis_chains/analysis/coefficient.py] and of the parameter copy
    of [pos_simulator_python/benchmark/benchmark_algorithms.py].

    Conventions of the embedding.
    - Python floats are idealised as exact rationals ([Q]); [x == 0] on floats
      is [Qeq_bool x 0], [x >= y] is [Qle_bool y x].
    - [np.sqrt] and [**] with a fractional exponent are not rational
      operations: they are parameters of the development ([np_sqrt],
      [np_power]), so every theorem holds for any implementation of them.
    - The global random generator is an oracle indexed by the number of
      calls made so far; the index is threaded through every stochastic
      function.
    - In-place mutation of a list argument is explicit state passing: the
      function returns the new contents of the lists it received.  The
      lists of the caller of [simulate] live in a heap of objects
      ([call_simulate]).
    - Exceptions are values of [outcome]; the recursion of [try_to_join]
      is bounded by the interpreter's recursion limit, a parameter. *)

From Stdlib Require Import QArith Qabs Qround Lqa ZArith Lia.
From stdpp Require Import base option list gmap strings pretty.

(** ** Python and NumPy primitives on lists of numbers *)

Module Py.

Local Open Scope Q_scope.

Definition Qlt_bool (x y : Q) : bool := negb (Qle_bool y x).

(** [sum(l)]: left-to-right accumulation from [0]. *)
Definition sum (l : list Q) : Q := fold_left Qplus l 0.

(** [np.cumsum(l)]: running totals. *)
Fixpoint cumsum_from (acc : Q) (l : list Q) : list Q :=
  match l with
  | [] => []
  | x :: rest => (acc + x) :: cumsum_from (acc + x) rest
  end.

Definition cumsum (l : list Q) : list Q := cumsum_from 0 l.

(** [max(l)] and [min(l)] on a non-empty list (head [x], tail [rest]): the
    first extremal element is kept. *)
Definition max (x : Q) (rest : list Q) : Q :=
  fold_left (fun m y => if Qlt_bool m y then y else m) rest x.

Definition min (x : Q) (rest : list Q) : Q :=
  fold_left (fun m y => if Qlt_bool y m then y else m) rest x.

(** The two-argument [max(a, b)] and [min(a, b)]: [a] unless [b] is
    strictly better. *)
Definition max2 (a b : Q) : Q := if Qlt_bool a b then b else a.
Definition min2 (a b : Q) : Q := if Qlt_bool b a then b else a.

(** [sorted(l)] and [sorted(l, reverse=True)]: stable insertion into an
    already sorted suffix. *)
Fixpoint insert_asc (x : Q) (l : list Q) : list Q :=
  match l with
  | [] => [x]
  | y :: rest => if Qle_bool x y then x :: l else y :: insert_asc x rest
  end.

Fixpoint insert_desc (x : Q) (l : list Q) : list Q :=
  match l with
  | [] => [x]
  | y :: rest => if Qle_bool y x then x :: l else y :: insert_desc x rest
  end.

Definition sorted (l : list Q) : list Q := fold_right insert_asc [] l.
Definition sorted_reverse (l : list Q) : list Q := fold_right insert_desc [] l.

(** [len(l)] as a float. *)
Definition len (l : list Q) : Q := inject_Z (Z.of_nat (length l)).

(** The mask [w > 0] of [weights[weights > 0]]. *)
Definition is_positive (w : Q) : Prop := Qlt_bool 0 w = true.

#[global] Instance is_positive_dec (w : Q) : Decision (is_positive w) :=
  decide (Qlt_bool 0 w = true).

End Py.

(** ** utils.py: the metrics *)

Module Metrics.

Local Open Scope Q_scope.

(** [gini(data)] *)
Definition gini (data : list Q) : Q :=
  match data with
  | [] => 0
  | _ :: _ =>
    let n := Py.len data in
    let total := Py.sum data in
    if Qeq_bool total 0 then 0
    else
      let sorted_data := Py.sorted data in
      let cumulative_percentage :=
        map (fun c => c / total) (Py.cumsum sorted_data) in
      let lorenz_curve :=
        zip_with (fun c s => c - (1 # 2) * (s / total))
                 cumulative_percentage sorted_data in
      1 - 2 * Py.sum lorenz_curve / n
  end.

(** The [for i, value in enumerate(sorted_data)] loop of
    [nakamoto_coefficient]: [Some (i + 1)] at the first [i] where the
    running sum reaches the target, [None] when the loop falls through. *)
Fixpoint nakamoto_scan (target_amount cumulative_sum : Q) (i : nat)
    (sorted_data : list Q) : option nat :=
  match sorted_data with
  | [] => None
  | value :: rest =>
    let cumulative_sum := cumulative_sum + value in
    if Qle_bool target_amount cumulative_sum then Some (S i)
    else nakamoto_scan target_amount cumulative_sum (S i) rest
  end.

(** [nakamoto_coefficient(data, threshold)] *)
Definition nakamoto_coefficient (data : list Q) (threshold : Q) : nat :=
  match data with
  | [] => 0%nat
  | _ :: _ =>
    let total := Py.sum data in
    if Qeq_bool total 0 then 0%nat
    else
      let sorted_data := Py.sorted_reverse data in
      let target_amount := total * threshold in
      match nakamoto_scan target_amount 0 0 sorted_data with
      | Some k => k
      | None => length data
      end
  end.

(** The default [threshold=0.51]. *)
Definition default_threshold : Q := 51 # 100.

(** [HHI_coefficient(data)] *)
Definition HHI_coefficient (data : list Q) : Q :=
  match data with
  | [] => 0
  | _ :: _ =>
    let total := Py.sum data in
    if Qeq_bool total 0 then 0
    else
      let percentages := map (fun value => value / total) data in
      Py.sum (map (fun percentage => percentage ^ 2) percentages)
  end.

(** [lerp(a, b, l)] *)
Definition lerp (a b l : Q) : Q := (1 - l) * a + l * b.

(** [d(g, θ)] *)
Definition d (g θ : Q) : Q := if Py.Qlt_bool θ g then 1 # 2 else 3 # 2.

End Metrics.

(** ** analysis_chains/analysis/coefficient.py: the HHI of a data-frame column *)

Module Analysis.

Local Open Scope Q_scope.

(** A column of a data frame: [None] is a missing value (NaN). *)
Definition column := list (option Q).

(** [calculate_hhi_coefficient(df, col, normalize)], on the column [df[col]]. *)
Definition calculate_hhi_coefficient (col : column) (normalize : bool) : Q :=
  let weights := map (fun o => default 0 o) col in          (* fillna(0) *)
  let weights := filter Py.is_positive weights in
  let total_weight := Py.sum weights in
  if Qeq_bool total_weight 0 then 0
  else
    let market_shares := map (fun w => w / total_weight) weights in
    let hhi_index := Py.sum (map (fun s => s ^ 2) market_shares) in
    if normalize && (1 <? length weights)%nat then
      let n := Py.len weights in
      (hhi_index - 1 / n) / (1 - 1 / n)
    else hhi_index.

End Analysis.

(** ** parameters.py *)

Inductive Distribution := UNIFORM | GINI | RANDOM_DISTRIBUTION.

Inductive PoS :=
  | WEIGHTED | OPPOSITE_WEIGHTED | GINI_STABILIZED | LOG_WEIGHTED
  | DESW | SRSW_WEIGHTED | RANDOM.

Inductive NewEntry := NEW_MAX | NEW_MIN | NEW_RANDOM | NEW_AVERAGE.

Inductive SType := CONSTANT | LINEAR | QUADRATIC | SQRT.

Record Parameters := {
  n_epochs : Z;
  proof_of_stake : PoS;
  initial_stake_volume : Q;
  initial_distribution : Distribution;
  initial_gini : Q;
  n_peers : Z;
  n_corrupted : Z;
  p_fail : Q;
  p_join : Q;
  p_leave : Q;
  join_amount : NewEntry;
  penalty_percentage : Q;
  θ : Q;
  s_type : SType;
  k : Q;
  reward : Q;
  scheduled_joins : option (list (Z * Q))
}.

(** Exceptions the modelled code can raise, and the result of a call. *)
Inductive exn := ValueError | RecursionError | IndexError.

Inductive outcome (A : Type) :=
  | Normal (a : A)
  | Raised (e : exn).

Arguments Normal {A} a.
Arguments Raised {A} e.

(** [not 0 <= x <= 1] *)
Definition outside_unit (x : Q) : bool :=
  negb (Qle_bool 0 x && Qle_bool x 1).

(** [Parameters.__post_init__]: the checks in source order; each failure
    is a [ValueError]. *)
Definition post_init (self : Parameters) : outcome unit :=
  if (n_epochs self <=? 0)%Z then Raised ValueError
  else if outside_unit (initial_gini self) then Raised ValueError
  else if (n_peers self <=? 0)%Z then Raised ValueError
  else if (n_corrupted self <? 0)%Z then Raised ValueError
  else if outside_unit (p_fail self) then Raised ValueError
  else if outside_unit (p_join self) then Raised ValueError
  else if outside_unit (p_leave self) then Raised ValueError
  else if outside_unit (penalty_percentage self) then Raised ValueError
  else if outside_unit (θ self) then Raised ValueError
  else if Qle_bool (k self) 0 then Raised ValueError
  else if Qle_bool (reward self) 0 then Raised ValueError
  else Normal tt.

(** A [Parameters] object exists only if its construction did not raise. *)
Definition validated (params : Parameters) : Prop :=
  post_init params = Normal tt.

(** ** The interpreter environment

    What the code takes from outside itself: NumPy's square root and
    fractional power on floats, the stream of values the global [random]
    generator hands out, and the number of nested [try_to_join]
    activations the interpreter allows before it raises [RecursionError].

    [random_random i] is the float in [[0, 1)] returned when the [i]-th
    call to the generator is [random.random()]; [random_bits i] is the raw
    integer reduced to the requested range when that call is
    [random.randint]. *)
Class Runtime := {
  np_sqrt : Q -> Q;
  np_power : Q -> Q -> Q;
  random_random : nat -> Q;
  random_bits : nat -> nat;
  recursion_limit : nat
}.

(** The position in the generator's stream: the number of draws made. *)
Definition rng := nat.

(** [random.random()] *)
Definition random `{Runtime} (g : rng) : Q * rng := (random_random g, S g).

(** [random.randint(0, n - 1)], called with [n > 0] only. *)
Definition randint_below `{Runtime} (n : nat) (g : rng) : nat * rng :=
  (random_bits g mod n, S g).

(** ** utils.py: the consensus selectors *)

Module Consensus.

Local Open Scope Q_scope.

(** The closing loop shared by the selectors:
    [for i, cum_prob in enumerate(cumulative_probabilities):
       if cum_prob >= random_number: return i]
    then the fallback [return len(peers) - 1]. *)
Fixpoint first_reaching (random_number : Q) (i : nat)
    (cumulative_probabilities : list Q) : option nat :=
  match cumulative_probabilities with
  | [] => None
  | cum_prob :: rest =>
    if Qle_bool random_number cum_prob then Some i
    else first_reaching random_number (S i) rest
  end.

Definition select (cumulative_probabilities : list Q) (random_number : Q)
    (peers : list Q) : nat :=
  default (length peers - 1)%nat
          (first_reaching random_number 0 cumulative_probabilities).

(** [weighted_consensus(peers)] *)
Definition weighted_consensus `{Runtime} (peers : list Q) (g : rng)
    : outcome nat * rng :=
  match peers with
  | [] => (Raised ValueError, g)
  | _ :: _ =>
    let total := Py.sum peers in
    if Qeq_bool total 0 then
      let '(i, g) := randint_below (length peers) g in (Normal i, g)
    else
      let cumulative_probabilities :=
        Py.cumsum (map (fun x => x / total) peers) in
      let '(random_number, g) := random g in
      (Normal (select cumulative_probabilities random_number peers), g)
  end.

(** [opposite_weighted_consensus(peers)] *)
Definition opposite_weighted_consensus `{Runtime} (peers : list Q) (g : rng)
    : outcome nat * rng :=
  match peers with
  | [] => (Raised ValueError, g)
  | x :: rest =>
    let max_peer := Py.max x rest in
    let opposite_peers := map (fun peer => Qabs (max_peer - peer)) peers in
    let total := Py.sum opposite_peers in
    if Qeq_bool total 0 then
      let '(i, g) := randint_below (length peers) g in (Normal i, g)
    else
      let cumulative_probabilities :=
        Py.cumsum (map (fun x => x / total) opposite_peers) in
      let '(random_number, g) := random g in
      (Normal (select cumulative_probabilities random_number peers), g)
  end.

(** [lerp_vector(a, b, l)] *)
Definition lerp_vector (a b : list Q) (l : Q) : outcome (list Q) :=
  if (length a =? length b)%nat
  then Normal (zip_with (fun x y => (1 - l) * x + l * y) a b)
  else Raised ValueError.

(** [gini_stabilized_consensus(peers, t)] *)
Definition gini_stabilized_consensus `{Runtime} (peers : list Q) (t : Q)
    (g : rng) : outcome nat * rng :=
  if Qeq_bool t (-1) then (Raised ValueError, g)
  else
    match peers with
    | [] => (Raised ValueError, g)
    | x :: rest =>
      let total := Py.sum peers in
      if Qeq_bool total 0 then
        let '(i, g) := randint_below (length peers) g in (Normal i, g)
      else
        let weighted := Py.cumsum (map (fun x => x / total) peers) in
        let max_peer := Py.max x rest in
        let processed_peers :=
          map (fun peer => Qabs (max_peer - peer)) peers in
        let total_processed := Py.sum processed_peers in
        let opposite_weighted :=
          if Qeq_bool total_processed 0
          then Py.cumsum (map (fun _ => 1 / Py.len peers) peers)
          else Py.cumsum (map (fun x => x / total_processed) processed_peers)
        in
        match lerp_vector opposite_weighted weighted t with
        | Raised e => (Raised e, g)
        | Normal cumulative_probabilities =>
          let '(random_number, g) := random g in
          (Normal (select cumulative_probabilities random_number peers), g)
        end
    end.

(** The exponent of [desw_consensus]:
    [p_dynamic = max(0.2, min(0.8, 1 - gini_stake))]. *)
Definition p_dynamic_of (gini_stake : Q) : Q :=
  Py.max2 (2 # 10) (Py.min2 (8 # 10) (1 - gini_stake)).

Definition p_dynamic (peers : list Q) : Q :=
  p_dynamic_of (Metrics.gini peers).

(** [desw_consensus(peers)].  With a zero [total_weight] NumPy divides
    into nan or inf where [Q] divides into [0]; for non-negative stakes
    with a positive sum the power weights of floats have a positive sum. *)
Definition desw_consensus `{Runtime} (peers : list Q) (g : rng)
    : outcome nat * rng :=
  match peers with
  | [] => (Raised ValueError, g)
  | _ :: _ =>
    let total := Py.sum peers in
    if Qeq_bool total 0 then
      let '(i, g) := randint_below (length peers) g in (Normal i, g)
    else
      let p_dynamic := p_dynamic peers in
      let power_weights := map (fun x => np_power x p_dynamic) peers in
      let total_weight := Py.sum power_weights in
      let probabilities := map (fun w => w / total_weight) power_weights in
      let cumulative_probabilities := Py.cumsum probabilities in
      let '(random_number, g) := random g in
      (Normal (select cumulative_probabilities random_number peers), g)
  end.

(** [srsw_weighted_consensus(peers)] *)
Definition srsw_weighted_consensus `{Runtime} (peers : list Q) (g : rng)
    : outcome nat * rng :=
  match peers with
  | [] => (Raised ValueError, g)
  | _ :: _ =>
    let srsw_stakes := map (fun stake => np_sqrt stake) peers in
    let total := Py.sum srsw_stakes in
    if Qeq_bool total 0 then
      let '(i, g) := randint_below (length peers) g in (Normal i, g)
    else
      let cumulative_probabilities :=
        Py.cumsum (map (fun x => x / total) srsw_stakes) in
      let '(random_number, g) := random g in
      (Normal (select cumulative_probabilities random_number peers), g)
  end.

(** [epsilon = 1e-8] *)
Definition epsilon : Q := 1 # 100000000.

(** [log_weighted_consensus(peers)] *)
Definition log_weighted_consensus `{Runtime} (peers : list Q) (g : rng)
    : outcome nat * rng :=
  match peers with
  | [] => (Raised ValueError, g)
  | _ :: _ =>
    let log_stakes :=
      map (fun stake => np_sqrt (Py.max2 stake epsilon)) peers in
    let total := Py.sum log_stakes in
    if Qeq_bool total 0 then
      let '(i, g) := randint_below (length peers) g in (Normal i, g)
    else
      let cumulative_probabilities :=
        Py.cumsum (map (fun x => x / total) log_stakes) in
      let '(random_number, g) := random g in
      (Normal (select cumulative_probabilities random_number peers), g)
  end.

(** [random_consensus(peers)] *)
Definition random_consensus `{Runtime} (peers : list Q) (g : rng)
    : outcome nat * rng :=
  match peers with
  | [] => (Raised ValueError, g)
  | _ :: _ =>
    let '(i, g) := randint_below (length peers) g in (Normal i, g)
  end.

(** [consensus(pos, stakes, t)]; the final [else] of the source is
    unreachable for a member of the enumeration. *)
Definition consensus `{Runtime} (pos : PoS) (stakes : list Q) (t : Q)
    (g : rng) : outcome nat * rng :=
  match pos with
  | WEIGHTED => weighted_consensus stakes g
  | OPPOSITE_WEIGHTED => opposite_weighted_consensus stakes g
  | GINI_STABILIZED => gini_stabilized_consensus stakes t g
  | LOG_WEIGHTED => log_weighted_consensus stakes g
  | DESW => desw_consensus stakes g
  | SRSW_WEIGHTED => srsw_weighted_consensus stakes g
  | RANDOM => random_consensus stakes g
  end.

(** The default [t = -1.0] of [consensus]. *)
Definition default_t : Q := -1.

End Consensus.

(** ** utils.py: peer churn *)

Module Churn.

Local Open Scope Q_scope.

(** The four [new_stake = ...] branches of [try_to_join].  Each
    [... if stakes else 0] tests the list first, so [NEW_RANDOM] draws an
    index only from a non-empty list. *)
Definition new_stake `{Runtime} (stakes : list Q) (join_amount : NewEntry)
    (g : rng) : outcome Q * rng :=
  match join_amount, stakes with
  | _, [] => (Normal 0, g)
  | NEW_AVERAGE, _ :: _ => (Normal (Py.sum stakes / Py.len stakes), g)
  | NEW_MAX, x :: rest => (Normal (Py.max x rest), g)
  | NEW_MIN, x :: rest => (Normal (Py.min x rest), g)
  | NEW_RANDOM, _ :: _ =>
    let '(i, g) := randint_below (length stakes) g in
    match stakes !! i with
    | Some s => (Normal s, g)
    | None => (Raised IndexError, g)
    end
  end.

(** [try_to_join(stakes, corrupted, p, join_amount, percentage_corrupted)].
    [depth] is the number of activations the interpreter still allows; the
    lists returned are the contents of the two list objects when the call
    ends, also when it ends by an exception. *)
Fixpoint try_to_join `{Runtime} (depth : nat) (stakes : list Q)
    (corrupted : list nat) (p : Q) (join_amount : NewEntry)
    (percentage_corrupted : Q) (g : rng)
    : option exn * (list Q * list nat) * rng :=
  match depth with
  | O => (Some RecursionError, (stakes, corrupted), g)
  | S depth =>
    let '(u, g) := random g in
    if Qle_bool u p then
      match new_stake stakes join_amount g with
      | (Raised e, g) => (Some e, (stakes, corrupted), g)
      | (Normal new_stake, g) =>
        let stakes := stakes ++ [new_stake] in
        let '(u, g) := random g in
        let corrupted :=
          if Qle_bool u percentage_corrupted
          then corrupted ++ [(length stakes - 1)%nat]
          else corrupted in
        try_to_join depth stakes corrupted p join_amount
                    percentage_corrupted g
      end
    else (None, (stakes, corrupted), g)
  end.

(** [try_to_leave(stakes, p)]: [if stakes and random.random() <= p] draws
    nothing on an empty list. *)
Definition try_to_leave `{Runtime} (stakes : list Q) (p : Q) (g : rng)
    : list Q * rng :=
  match stakes with
  | [] => (stakes, g)
  | _ :: _ =>
    let '(u, g) := random g in
    if Qle_bool u p then
      let '(index_to_remove, g) := randint_below (length stakes) g in
      (delete index_to_remove stakes, g)
    else (stakes, g)
  end.

End Churn.

(** ** simulator.py *)

Module Simulator.

Local Open Scope Q_scope.

Import Metrics Consensus Churn.

(** The four histories [simulate] returns, in the order of its [return]. *)
Record histories := {
  gini_history : list Q;
  n_peers_history : list nat;
  nakamoto_history : list nat;
  hhi_history : list Q
}.

(** The local state of a run: the two working lists, the interpolation
    state, the histories, and the position in the random stream. *)
Record run := mkRun {
  stakes : list Q;
  corrupted : list nat;
  t : Q;
  hist : histories;
  gen : rng
}.

(** [scheduled_joins_dict]: epoch to the stake amounts scheduled for it,
    in the order of the table. *)
Definition scheduled_joins_dict (params : Parameters) : gmap Z (list Q) :=
  match scheduled_joins params with
  | None => ∅
  | Some table =>
    fold_left
      (fun (dict : gmap Z (list Q)) '(epoch, stake_amount) =>
         <[epoch := default [] (dict !! epoch) ++ [stake_amount]]> dict)
      table ∅
  end.

(** [s] of the [GINI_STABILIZED] branch. *)
Definition smoothing_step `{Runtime} (params : Parameters) (g : Q) : Q :=
  match s_type params with
  | CONSTANT => k params
  | LINEAR => Qabs (g - θ params) * k params
  | QUADRATIC => Qabs (g - θ params) ^ 2 * k params
  | SQRT => np_power (Qabs (g - θ params)) (1 # 2) * k params
  end.

(** The reward or penalty at the end of an epoch; [and] draws the failure
    number only for a corrupted validator.  An index out of range would
    raise [IndexError]. *)
Definition settle `{Runtime} (params : Parameters) (stakes : list Q)
    (corrupted : list nat) (validator : nat) (g : rng)
    : outcome (list Q) * rng :=
  let '(failed, g) :=
    if bool_decide (validator ∈ corrupted) then
      let '(u, g) := random g in (Py.Qlt_bool (1 - p_fail params) u, g)
    else (false, g) in
  match stakes !! validator with
  | None => (Raised IndexError, g)
  | Some stake =>
    if failed
    then (Normal (<[validator := stake * (1 - penalty_percentage params)]>
                    stakes), g)
    else (Normal (<[validator := stake + reward params]> stakes), g)
  end.

(** The body of [for i in range(params.n_epochs)].  The result pairs the
    exception, if one ended the body, with the local state at that
    point. *)
Definition epoch `{Runtime} (params : Parameters)
    (scheduled : gmap Z (list Q)) (percentage_corrupted : Q) (i : nat)
    (s : run) : option exn * run :=
  let stakes0 := stakes s ++ default [] (scheduled !! Z.of_nat i) in
  let '(e, (stakes1, corrupted1), g1) :=
    try_to_join recursion_limit stakes0 (corrupted s) (p_join params)
                (join_amount params) percentage_corrupted (gen s) in
  match e with
  | Some e => (Some e, mkRun stakes1 corrupted1 (t s) (hist s) g1)
  | None =>
    let '(stakes2, g2) := try_to_leave stakes1 (p_leave params) g1 in
    let g := gini stakes2 in
    let nc := nakamoto_coefficient stakes2 default_threshold in
    let hhi := HHI_coefficient stakes2 in
    let h :=
      {| gini_history := gini_history (hist s) ++ [g];
         n_peers_history := n_peers_history (hist s);
         nakamoto_history := nakamoto_history (hist s) ++ [nc];
         hhi_history := hhi_history (hist s) ++ [hhi] |} in
    let '(validator, t', g3) :=
      match proof_of_stake params with
      | GINI_STABILIZED =>
        let s' := smoothing_step params g in
        let '(validator, g3) :=
          consensus (proof_of_stake params) stakes2 (t s) g2 in
        (validator, lerp (t s) (d g (θ params)) s', g3)
      | _ =>
        let '(validator, g3) :=
          consensus (proof_of_stake params) stakes2 default_t g2 in
        (validator, t s, g3)
      end in
    match validator with
    | Raised e => (Some e, mkRun stakes2 corrupted1 (t s) h g3)
    | Normal validator =>
      match settle params stakes2 corrupted1 validator g3 with
      | (Raised e, g4) => (Some e, mkRun stakes2 corrupted1 t' h g4)
      | (Normal stakes3, g4) =>
        let h :=
          {| gini_history := gini_history h;
             n_peers_history := n_peers_history h ++ [length stakes3];
             nakamoto_history := nakamoto_history h;
             hhi_history := hhi_history h |} in
        (None, mkRun stakes3 corrupted1 t' h g4)
      end
    end
  end.

(** The loop over the epochs [indices]: it stops at the first exception. *)
Fixpoint epochs `{Runtime} (params : Parameters)
    (scheduled : gmap Z (list Q)) (percentage_corrupted : Q)
    (indices : list nat) (s : run) : option exn * run :=
  match indices with
  | [] => (None, s)
  | i :: rest =>
    match epoch params scheduled percentage_corrupted i s with
    | (Some e, s) => (Some e, s)
    | (None, s) => epochs params scheduled percentage_corrupted rest s
    end
  end.

(** [range(n)] *)
Definition range (n : Z) : list nat := seq 0 (Z.to_nat n).

(** The local state of [simulate] when the loop is entered: the working
    lists are the deep copies of the arguments. *)
Definition initial_run (stakes : list Q) (corrupted : list nat)
    (params : Parameters) (g : rng) : run :=
  {| stakes := stakes;
     corrupted := corrupted;
     t := d (gini stakes) (θ params);
     hist := {| gini_history := []; n_peers_history := [];
                nakamoto_history := []; hhi_history := [] |};
     gen := g |}.

(** [percentage_corrupted = len(corrupted) / len(stakes) if stakes else 0] *)
Definition percentage_corrupted (stakes : list Q) (corrupted : list nat) : Q :=
  match stakes with
  | [] => 0
  | _ :: _ => inject_Z (Z.of_nat (length corrupted)) / Py.len stakes
  end.

(** The run of [simulate] over the first [n] epochs, from the values of
    its arguments. *)
Definition run_epochs `{Runtime} (stakes : list Q) (corrupted : list nat)
    (params : Parameters) (g : rng) (indices : list nat) : option exn * run :=
  epochs params (scheduled_joins_dict params)
         (percentage_corrupted stakes corrupted) indices
         (initial_run stakes corrupted params g).

(** [simulate(stakes, corrupted, params)] on the values of its arguments:
    the four histories, or the exception that ended the run, and the local
    state at the end. *)
Definition simulate `{Runtime} (stakes : list Q) (corrupted : list nat)
    (params : Parameters) (g : rng) : outcome histories * run :=
  match run_epochs stakes corrupted params g (range (n_epochs params)) with
  | (Some e, s) => (Raised e, s)
  | (None, s) => (Normal (hist s), s)
  end.

(** *** The caller's objects

    The arguments of [simulate] are references to list objects of the
    caller.  Its first two statements rebind the local names to deep
    copies, which no one else holds; every later mutation is on the
    copies. *)
Inductive pyobj :=
  | FloatList (l : list Q)
  | IntList (l : list nat).

Definition loc := nat.

(** [copy.deepcopy(o)]: a new object with the contents of [o]. *)
Definition deepcopy (heap : gmap loc pyobj) (o : pyobj)
    : gmap loc pyobj * loc :=
  let r := fresh (dom heap) in (<[r := o]> heap, r).

(** A call [simulate(stakes, corrupted, params)] with the two references
    [stakes_ref] and [corrupted_ref] into the caller's heap.  The heap
    returned holds the working copies in their final state.  [None]: the
    references do not hold lists of the expected kinds. *)
Definition call_simulate `{Runtime} (heap : gmap loc pyobj)
    (stakes_ref corrupted_ref : loc) (params : Parameters) (g : rng)
    : option (outcome histories * gmap loc pyobj * rng) :=
  match heap !! stakes_ref, heap !! corrupted_ref with
  | Some (FloatList stakes), Some (IntList corrupted) =>
    let '(heap, stakes_copy) := deepcopy heap (FloatList stakes) in
    let '(heap, corrupted_copy) := deepcopy heap (IntList corrupted) in
    let '(result, s) := simulate stakes corrupted params g in
    let heap := <[stakes_copy := FloatList (Simulator.stakes s)]> heap in
    let heap := <[corrupted_copy := IntList (Simulator.corrupted s)]> heap in
    Some (result, heap, gen s)
  | _, _ => None
  end.

End Simulator.

(** ** utils.py: the derived scores *)

Module Scores.

Local Open Scope Q_scope.

Import Metrics.

(** [thresholds = [0.25, 0.33, 0.50, 0.51, 0.66, 0.75]] *)
Definition thresholds : list Q :=
  [25 # 100; 33 # 100; 50 # 100; 51 # 100; 66 # 100; 75 # 100].

(** [int(x)]: truncation towards zero. *)
Definition int (x : Q) : Z := Z.quot (Qnum x) (Zpos (Qden x)).

(** The key [f"{int(threshold * 100)}%"]. *)
Definition percent_key (threshold : Q) : string :=
  pretty (int (threshold * 100)) +:+ "%".

(** [nakamoto_coefficient_analysis(data)]: the dictionary from the six
    keys to the coefficients, empty for empty data. *)
Definition nakamoto_coefficient_analysis (data : list Q) : gmap string nat :=
  match data with
  | [] => ∅
  | _ :: _ =>
    fold_left
      (fun (results : gmap string nat) threshold =>
         <[percent_key threshold := nakamoto_coefficient data threshold]>
           results)
      thresholds ∅
  end.

(** [decentralization_score(data)] *)
Definition decentralization_score (data : list Q) : Q :=
  match data with
  | [] => 0
  | _ :: _ =>
    let n_entities := length data in
    let nc_51 := nakamoto_coefficient data (51 # 100) in
    if (n_entities =? 1)%nat then 0
    else
      (inject_Z (Z.of_nat n_entities) - inject_Z (Z.of_nat nc_51))
      / (inject_Z (Z.of_nat n_entities) - 1)
  end.

End Scores.

(** ** utils.py: the initial stake distributions *)

(** The result of float arithmetic that can divide by zero, or fail like
    the rest of the code. *)
Inductive arith (A : Type) :=
  | Computed (a : A)
  | ZeroDivisionError
  | Failed (e : exn).

Arguments Computed {A} a.
Arguments ZeroDivisionError {A}.
Arguments Failed {A} e.

Module Generators.

Local Open Scope Q_scope.

(** [x / y] on Python floats and ints. *)
Definition divide (x y : Q) : arith Q :=
  if Qeq_bool y 0 then ZeroDivisionError else Computed (x / y).

(** An [int] as a float. *)
Definition of_int (n : Z) : Q := inject_Z n.

(** [range(lo, hi)] as floats. *)
Definition range_from (lo hi : Z) : list Q :=
  map (fun i => of_int (lo + Z.of_nat i)) (seq 0 (Z.to_nat (hi - lo))).

(** The loop [for i in range(1, len(l)): out.append(l[i] - l[i - 1])]:
    the differences of neighbours. *)
Definition differences (l : list Q) : list Q :=
  zip_with (fun later earlier => later - earlier) (tail l) l.

(** [generate_vector_uniform(n, volume)]: [[volume / n for _ in
    range(n)]]; the division is inside the comprehension, so it is
    evaluated only for [n > 0]. *)
Definition generate_vector_uniform (n : Z) (volume : Q) : list Q :=
  replicate (Z.to_nat n) (volume / of_int n).

(** The slope [m] of the inner [lorenz_curve(x1, y1, x2, y2)]. *)
Definition lorenz_slope (x1 y1 x2 y2 : Q) : Q :=
  if Qeq_bool x2 x1 then 0 else (y2 - y1) / (x2 - x1).

(** [generate_vector_with_gini(n_peers, initial_volume, gini_coeff)].
    The loops run over [range(1, n_peers)]; for [n_peers >= 2] the list
    [q] has [n_peers] entries and the second loop takes the differences of
    all its neighbours, for [n_peers < 0] both loops are empty. *)
Definition generate_vector_with_gini (n_peers : Z) (initial_volume : Q)
    (gini_coeff : Q) : arith (list Q) :=
  let max_r := (of_int n_peers - 1) / 2 in
  let r := gini_coeff * max_r in
  match divide (of_int n_peers - 1) (of_int n_peers) with
  | ZeroDivisionError => ZeroDivisionError
  | Failed e => Failed e
  | Computed x2 =>
    match divide (max_r - r) max_r with
    | ZeroDivisionError => ZeroDivisionError
    | Failed e => Failed e
    | Computed ratio =>
      let prop := x2 * ratio in
      let m := lorenz_slope 0 0 x2 prop in
      let q :=
        map (fun i => m * (i / of_int n_peers)) (range_from 1 n_peers)
        ++ [1] in
      let cumulative_sum := map (fun i => i * initial_volume) q in
      match cumulative_sum with
      | [] => Failed IndexError
      | first :: _ => Computed (first :: differences cumulative_sum)
      end
    end
  end.

(** [[random.uniform(0, volume) for _ in range(count)]]:
    [random.uniform(a, b)] is [a + (b - a) * random.random()]. *)
Fixpoint uniform_draws `{Runtime} (count : nat) (volume : Q) (g : rng)
    : list Q * rng :=
  match count with
  | O => ([], g)
  | S count =>
    let '(u, g) := random g in
    let '(rest, g) := uniform_draws count volume g in
    ((0 + (volume - 0) * u) :: rest, g)
  end.

(** [generate_vector_random(n, volume)], for [n >= 2] on [n - 1] sorted
    cut points: the first cut, the differences of neighbours, and what
    is left up to [volume]. *)
Definition generate_vector_random `{Runtime} (n : Z) (volume : Q) (g : rng)
    : arith (list Q) * rng :=
  if (n <=? 0)%Z then (Computed [], g)
  else if (n =? 1)%Z then (Computed [volume], g)
  else
    let '(draws, g) := uniform_draws (Z.to_nat (n - 1)) volume g in
    let cut_points := Py.sorted draws in
    match cut_points, last cut_points with
    | first :: _, Some final =>
      let stakes :=
        first :: differences cut_points ++ [volume - final] in
      let stakes := map (fun stake => Py.max2 0 stake) stakes in
      let total := Py.sum stakes in
      if Py.Qlt_bool 0 total
      then (Computed (map (fun stake => stake * volume / total) stakes), g)
      else (Computed (generate_vector_uniform n volume), g)
    | _, _ => (Failed IndexError, g)
    end.

(** [generate_peers(n_peers, initial_volume, distribution_type,
    initial_gini)]; the final [else] of the source is unreachable for a
    member of the enumeration. *)
Definition generate_peers `{Runtime} (n_peers : Z) (initial_volume : Q)
    (distribution_type : Distribution) (initial_gini : Q) (g : rng)
    : arith (list Q) * rng :=
  match distribution_type with
  | UNIFORM => (Computed (generate_vector_uniform n_peers initial_volume), g)
  | GINI =>
    let initial_gini :=
      if Qeq_bool initial_gini (-1) then 3 # 10 else initial_gini in
    (generate_vector_with_gini n_peers initial_volume initial_gini, g)
  | RANDOM_DISTRIBUTION => generate_vector_random n_peers initial_volume g
  end.

End Generators.

(** ** utils.py: the unused smoothing rule with a division *)

Module Smoothing.

Local Open Scope Q_scope.

Import Generators.

(** [compute_smooth_parameter2(current_gini, target_gini, r)] *)
Definition compute_smooth_parameter2 (current_gini target_gini r : Q)
    : arith Q :=
  let denom := target_gini + r in
  if Qeq_bool denom 0 then Computed (1 # 2)
  else
    match divide 1 (1 - target_gini / denom) with
    | ZeroDivisionError => ZeroDivisionError
    | Failed e => Failed e
    | Computed factor =>
      let res :=
        (1 # 2) - (current_gini / denom - target_gini / denom) * factor in
      let res := if Py.Qlt_bool 1 res then 1 else res in
      let res := if Py.Qlt_bool res 0 then 0 else res in
      Computed res
    end.

End Smoothing.

(** ** analysis_chains/analysis/coefficient.py: Gini and Nakamoto of a column *)

Module ChainAnalysis.

Local Open Scope Q_scope.

(** [np.trapz(y, dx=dx)]: the sum of [dx * (y[i + 1] + y[i]) / 2]. *)
Definition trapz (y : list Q) (dx : Q) : Q :=
  Py.sum (zip_with (fun later earlier => dx * (later + earlier) / 2)
                   (tail y) y).

(** [calculate_gini_coefficient(df, col)] on a column without missing
    values; [cum_weights[-1]] raises [IndexError] on an empty column.
    NumPy's quotient by a zero total is [nan]; the properties below are
    stated for a non-zero total. *)
Definition calculate_gini_coefficient (weights : list Q) : outcome Q :=
  let weights_sorted := Py.sorted weights in
  let cum_weights := Py.cumsum weights_sorted in
  match last cum_weights with
  | None => Raised IndexError
  | Some total_weight =>
    let lorenz_curve := map (fun c => c / total_weight) cum_weights in
    let B := trapz lorenz_curve (1 / Py.len weights) in
    Normal (1 - 2 * B)
  end.

(** The loop of [calculate_nakamoto_coefficient]: the first count whose
    running sum is above the threshold. *)
Fixpoint majority_scan (threshold cumulative_stake : Q) (i : nat)
    (tokens_sorted : list Q) : option nat :=
  match tokens_sorted with
  | [] => None
  | stake :: rest =>
    let cumulative_stake := cumulative_stake + stake in
    if Py.Qlt_bool threshold cumulative_stake then Some (S i)
    else majority_scan threshold cumulative_stake (S i) rest
  end.

(** [calculate_nakamoto_coefficient(df, col)] on a column without missing
    values; [np.sort(tokens)[::-1]] is the ascending sort, reversed. *)
Definition calculate_nakamoto_coefficient (tokens : list Q) : nat :=
  let tokens_sorted := rev (Py.sorted tokens) in
  let total_stake := Py.sum tokens_sorted in
  let threshold := total_stake / 2 in
  match majority_scan threshold 0 0 tokens_sorted with
  | Some count => count
  | None => length tokens_sorted
  end.

End ChainAnalysis.

(** ** benchmark/benchmark_algorithms.py: the parameters of one run *)

Module Benchmark.

Local Open Scope Q_scope.

(** [test_params] of [run_single_experiment]: the fields it passes on,
    the others at the defaults of the dataclass.  The construction runs
    [__post_init__]. *)
Definition test_params (pos_algorithm : PoS) (params : Parameters)
    : outcome Parameters :=
  let copy :=
    {| n_epochs := n_epochs params;
       proof_of_stake := pos_algorithm;
       initial_stake_volume := initial_stake_volume params;
       initial_distribution := initial_distribution params;
       initial_gini := 3 # 10;
       n_peers := n_peers params;
       n_corrupted := n_corrupted params;
       p_fail := p_fail params;
       p_join := p_join params;
       p_leave := p_leave params;
       join_amount := join_amount params;
       penalty_percentage := penalty_percentage params;
       θ := 3 # 10;
       s_type := LINEAR;
       k := 1 # 1000;
       reward := reward params;
       scheduled_joins := None |} in
  match post_init copy with
  | Raised e => Raised e
  | Normal _ => Normal copy
  end.

End Benchmark.

(** ** Closed forms, used to state what the generators produce *)

Module Expected.

Local Open Scope Q_scope.

(** The stake of each of the first [n_peers - 1] peers of the Gini shape. *)
Definition small_share (n_peers : Z) (initial_volume gini_coeff : Q) : Q :=
  (1 - gini_coeff) * initial_volume / Generators.of_int n_peers.

(** The stake of its last peer: what the others leave of the volume. *)
Definition large_share (n_peers : Z) (initial_volume gini_coeff : Q) : Q :=
  initial_volume
  - (Generators.of_int n_peers - 1)
    * small_share n_peers initial_volume gini_coeff.

(** A sequence of peer counts that, from [previous] on, never drops by
    more than one from an entry to the next. *)
Fixpoint drops_one_at_a_time (previous : nat) (counts : list nat) : Prop :=
  match counts with
  | [] => True
  | count :: rest =>
    (previous <= count + 1)%nat /\ drops_one_at_a_time count rest
  end.

(** The amounts a table of scheduled joins lists for [epoch], in its
    order. *)
Definition amounts_for (epoch : Z) (table : list (Z * Q)) : list Q :=
  omap (fun entry : Z * Q =>
          if decide (entry.1 = epoch) then Some entry.2 else None) table.

End Expected.

(** ** Conditions on a run, used to state the properties *)

Module RunConditions.

Local Open Scope Q_scope.

Import Simulator.

(** The result of a selector that did not raise: a position of [peers]. *)
Definition valid_pick (peers : list Q) (r : outcome nat * rng) : Prop :=
  exists v g', r = (Normal v, g') /\ (v < length peers)%nat.

(** Each of the four histories has [n] entries. *)
Definition history_lengths (n : nat) (h : histories) : Prop :=
  length (gini_history h) = n /\ length (n_peers_history h) = n
  /\ length (nakamoto_history h) = n /\ length (hhi_history h) = n.

(** Every history has one entry per epoch. *)
Definition full_length (params : Parameters) (h : histories) : Prop :=
  history_lengths (Z.to_nat (n_epochs params)) h.

(** The histories [h1] are an initial part of the histories [h2]. *)
Definition histories_prefix (h1 h2 : histories) : Prop :=
  gini_history h1 `prefix_of` gini_history h2
  /\ n_peers_history h1 `prefix_of` n_peers_history h2
  /\ nakamoto_history h1 `prefix_of` nakamoto_history h2
  /\ hhi_history h1 `prefix_of` hhi_history h2.

(** Three consecutive draws above [p] start at position [m] of the random
    stream. *)
Definition calm_at `{Runtime} (p : Q) (m : nat) : Prop :=
  forall j, (j < 3)%nat -> p < random_random (m + j).

(** The retries of [try_to_join] end within the recursion limit, wherever
    in the random stream they start: from every position, three
    consecutive draws above [p] begin fewer than [2 * recursion_limit - 2]
    draws later.  (One activation consumes two or three draws.) *)
Definition joins_settle `{Runtime} (p : Q) : Prop :=
  forall i, exists m,
    (i <= m)%nat /\ (m + 2 < i + 2 * recursion_limit)%nat /\ calm_at p m.

(** The guard [t == -1] of [gini_stabilized_consensus] cannot fire: the
    algorithm is another one, or the smoothing step is a constant in
    [[0, 1]], which keeps [t] between [0.5] and [1.5]. *)
Definition guard_safe (params : Parameters) : Prop :=
  proof_of_stake params <> GINI_STABILIZED
  \/ (s_type params = CONSTANT /\ 0 <= k params <= 1).

(** The state in which an epoch may start with [left] epochs to go and
    be sure to end normally. *)
Definition ready (params : Parameters) (left : nat) (s : run) : Prop :=
  (left < length (stakes s))%nat
  /\ (proof_of_stake params = GINI_STABILIZED ->
      s_type params = CONSTANT /\ 0 <= k params <= 1
      /\ 1 # 2 <= t s <= 3 # 2).

(** After [call_simulate], the caller's two list objects hold the final
    state of the run. *)
Definition caller_sees_final_state `{Runtime} (heap : gmap loc pyobj)
    (stakes_ref corrupted_ref : loc) (params : Parameters) (g : rng)
    : Prop :=
  exists stakes corrupted result heap' g',
    heap !! stakes_ref = Some (FloatList stakes)
    /\ heap !! corrupted_ref = Some (IntList corrupted)
    /\ call_simulate heap stakes_ref corrupted_ref params g
       = Some (result, heap', g')
    /\ heap' !! stakes_ref
       = Some (FloatList (Simulator.stakes
                            (simulate stakes corrupted params g).2))
    /\ heap' !! corrupted_ref
       = Some (IntList (Simulator.corrupted
                          (simulate stakes corrupted params g).2)).

(** No churn is configured. *)
Definition no_churn (params : Parameters) : Prop :=
  p_join params == 0 /\ p_leave params == 0
  /\ scheduled_joins params = None.

(** [simulate] returns histories with one entry per epoch. *)
Definition returns_full_histories `{Runtime} (stakes : list Q)
    (corrupted : list nat) (params : Parameters) (g : rng) : Prop :=
  exists h, fst (simulate stakes corrupted params g) = Normal h
            /\ full_length params h.

(** [simulate] returns a peer-count history that is the initial peer
    count at each of its [n_epochs] entries. *)
Definition returns_constant_peer_count `{Runtime} (stakes : list Q)
    (corrupted : list nat) (params : Parameters) (g : rng) : Prop :=
  exists h, fst (simulate stakes corrupted params g) = Normal h
            /\ n_peers_history h
               = replicate (Z.to_nat (n_epochs params)) (length stakes).

End RunConditions.

(** ** A concrete environment, to run the code on examples

    Fixed-point stand-ins for the two NumPy operations (sixteen decimal
    digits, rounded down) and random streams given by a finite prefix and
    a value repeated after it. *)

Module Demo.

Local Open Scope Q_scope.

Definition sqrt_fixed (x : Q) : Q :=
  Z.sqrt (Qfloor (x * inject_Z (10 ^ 32))) # (10 ^ 16).

(** [x ** p] for [0 <= p < 1], from the binary digits of [p]:
    the product of the [2^i]-th roots of [x] at the digits that are set. *)
Fixpoint power_digits (digits : nat) (root p acc : Q) : Q :=
  match digits with
  | O => acc
  | S digits =>
    let root := sqrt_fixed root in
    if Qle_bool 1 (2 * p)
    then power_digits digits root (2 * p - 1) (acc * root)
    else power_digits digits root (2 * p) acc
  end.

Definition power_fixed (x p : Q) : Q := power_digits 24 x p 1.

(** The environment whose [random.random()] draws are [draws], then
    [rest] for ever, whose [random.randint] draws reduce [bits], and
    which allows [limit] nested activations of [try_to_join]. *)
Definition runtime (draws : list Q) (rest : Q) (bits : nat) (limit : nat)
    : Runtime :=
  {| np_sqrt := sqrt_fixed;
     np_power := power_fixed;
     random_random := fun i => nth i draws rest;
     random_bits := fun _ => bits;
     recursion_limit := limit |}.

(** The defaults of the [Parameters] dataclass. *)
Definition default_parameters : Parameters :=
  {| n_epochs := 50000;
     proof_of_stake := WEIGHTED;
     initial_stake_volume := 10000;
     initial_distribution := GINI;
     initial_gini := 3 # 10;
     n_peers := 1000;
     n_corrupted := 20;
     p_fail := 1 # 2;
     p_join := 1 # 1000;
     p_leave := 1 # 1000;
     join_amount := NEW_RANDOM;
     penalty_percentage := 1 # 2;
     θ := 3 # 10;
     s_type := LINEAR;
     k := 1 # 1000;
     reward := 10;
     scheduled_joins := None |}.

(** [Parameters(n_epochs=n, proof_of_stake=pos, p_join=pj, p_leave=pl,
    s_type=st, k=kk)], the other fields at their defaults. *)
Definition parameters (n : Z) (pos : PoS) (pj pl : Q) (st : SType) (kk : Q)
    : Parameters :=
  {| n_epochs := n;
     proof_of_stake := pos;
     initial_stake_volume := 10000;
     initial_distribution := GINI;
     initial_gini := 3 # 10;
     n_peers := 1000;
     n_corrupted := 20;
     p_fail := 1 # 2;
     p_join := pj;
     p_leave := pl;
     join_amount := NEW_RANDOM;
     penalty_percentage := 1 # 2;
     θ := 3 # 10;
     s_type := st;
     k := kk;
     reward := 10;
     scheduled_joins := None |}.

(** Every [random.random()] draw is [0.5]; every [random.randint] draw
    reduces [0]; a thousand nested activations are allowed. *)
Definition steady : Runtime := runtime [] (1 # 2) 0 1000.

(** The same with every [random.random()] draw at [0.00005]. *)
Definition low_draws : Runtime := runtime [] (1 # 20000) 0 1000.

(** One epoch in which the leave is certain and no one joins. *)
Definition everyone_leaves : Parameters :=
  parameters 1 WEIGHTED 0 1 LINEAR (1 # 1000).

(** Three epochs of the Gini-stabilised selector, a constant smoothing
    step of [2.5], no churn. *)
Definition long_step : Parameters :=
  parameters 3 GINI_STABILIZED 0 0 CONSTANT (5 # 2).

(** Three epochs of the weighted selector without churn. *)
Definition quiet : Parameters :=
  parameters 3 WEIGHTED 0 0 LINEAR (1 # 1000).

(** Two epochs of the weighted selector with the default churn. *)
Definition short_run : Parameters :=
  parameters 2 WEIGHTED (1 # 1000) (1 # 1000) LINEAR (1 # 1000).

(** The stake vector of the specification's examples. *)
Definition five : list Q := [100; 200; 300; 400; 500].

(** A caller's heap: a stake list at [0], a corrupted list at [1]. *)
Definition caller_heap : gmap Simulator.loc Simulator.pyobj :=
  {[ 0%nat := Simulator.FloatList [1]; 1%nat := Simulator.IntList [] ]}.

(** The defaults with three scheduled joins, two of them at epoch [1]. *)
Definition late_joiners : Parameters :=
  {| n_epochs := 50000;
     proof_of_stake := WEIGHTED;
     initial_stake_volume := 10000;
     initial_distribution := GINI;
     initial_gini := 3 # 10;
     n_peers := 1000;
     n_corrupted := 20;
     p_fail := 1 # 2;
     p_join := 1 # 1000;
     p_leave := 1 # 1000;
     join_amount := NEW_RANDOM;
     penalty_percentage := 1 # 2;
     θ := 3 # 10;
     s_type := LINEAR;
     k := 1 # 1000;
     reward := 10;
     scheduled_joins := Some [(1%Z, 50); (0%Z, 20); (1%Z, 70)] |}.

(** The first three [random.random()] draws are [0.0], the later ones
    [0.5]: a join that is recorded as corrupted, then no further join. *)
Definition joining : Runtime := runtime [0; 0; 0] (1 # 2) 0 1000.

(** One epoch of the weighted selector with the default join
    probability and a certain leave. *)
Definition join_and_leave : Parameters :=
  parameters 1 WEIGHTED (1 # 1000) 1 LINEAR (1 # 1000).

End Demo.

(** ** The specification's wording of two definitions *)

Module Spec.

Local Open Scope Q_scope.

(** "drop non-positive/NaN entries" *)
Definition positive_entry (o : option Q) : option Q :=
  match o with
  | Some x => if Py.Qlt_bool 0 x then Some x else None
  | None => None
  end.

(** "HHI(stakes, normalize=false): drop non-positive/NaN entries; if
    remaining total is 0 return 0; else Σ(share_i²) where share_i =
    stake_i/total.  If normalize and count>1, rescale via
    (HHI − 1/n)/(1 − 1/n)." *)
Definition HHI (stakes : list (option Q)) (normalize : bool) : Q :=
  let remaining := omap positive_entry stakes in
  let total := Py.sum remaining in
  if Qeq_bool total 0 then 0
  else
    let hhi := Py.sum (map (fun stake => (stake / total) ^ 2) remaining) in
    let n := Py.len remaining in
    if normalize && (1 <? length remaining)%nat
    then (hhi - 1 / n) / (1 - 1 / n)
    else hhi.

(** "clamp(x, lo, hi)" *)
Definition clamp (x lo hi : Q) : Q :=
  if Py.Qlt_bool x lo then lo else if Py.Qlt_bool hi x then hi else x.

(** The total a selector compares with [0] before it samples: the sum of
    its weights, for the variants that build weights from the stakes
    ([DESW] and [GINI_STABILIZED] test the sum of the stakes); [RANDOM]
    has no weights and always picks uniformly. *)
Definition selection_total `{Runtime} (pos : PoS) (stakes : list Q)
    : option Q :=
  match pos, stakes with
  | RANDOM, _ => None
  | _, [] => None
  | WEIGHTED, _ | GINI_STABILIZED, _ | DESW, _ => Some (Py.sum stakes)
  | OPPOSITE_WEIGHTED, x :: rest =>
    Some (Py.sum (map (fun peer => Qabs (Py.max x rest - peer)) stakes))
  | SRSW_WEIGHTED, _ => Some (Py.sum (map (fun stake => np_sqrt stake) stakes))
  | LOG_WEIGHTED, _ =>
    Some (Py.sum (map (fun stake => np_sqrt (Py.max2 stake Consensus.epsilon))
                      stakes))
  end.

Definition zero_total_weight `{Runtime} (pos : PoS) (stakes : list Q) : Prop :=
  match selection_total pos stakes with
  | Some total => total == 0
  | None => pos = RANDOM
  end.

End Spec.

(** * Properties *)

#[global] Arguments Py.sum : simpl never.
#[global] Arguments Py.max : simpl never.
#[global] Arguments Py.min : simpl never.
#[global] Arguments Py.cumsum : simpl never.

(** ** Sums and comparisons *)

Section PyFacts.

Local Open Scope Q_scope.

Lemma Qlt_bool_iff (x y : Q) : Py.Qlt_bool x y = true <-> x < y.
Proof.
  unfold Py.Qlt_bool. rewrite negb_true_iff.
  destruct (Qle_bool y x) eqn:E.
  - apply Qle_bool_iff in E. split; [discriminate | intros Hlt; lra].
  - split; [intros _ | reflexivity].
    apply Qnot_le_lt. intros Hle. apply Qle_bool_iff in Hle. congruence.
Qed.

Lemma Qlt_bool_false (x y : Q) : Py.Qlt_bool x y = false <-> y <= x.
Proof.
  unfold Py.Qlt_bool. rewrite negb_false_iff. apply Qle_bool_iff.
Qed.

Lemma Qle_bool_false (x y : Q) : Qle_bool x y = false <-> y < x.
Proof.
  rewrite <- Qlt_bool_iff. unfold Py.Qlt_bool.
  destruct (Qle_bool x y); simpl; split; congruence.
Qed.

Lemma fold_sum_shift (l : list Q) (a : Q) :
  fold_left Qplus l a == a + Py.sum l.
Proof.
  unfold Py.sum. revert a. induction l as [|x l IH]; intros a; simpl.
  - lra.
  - rewrite (IH (a + x)), (IH (0 + x)). lra.
Qed.

Lemma sum_cons (x : Q) (l : list Q) : Py.sum (x :: l) == x + Py.sum l.
Proof. unfold Py.sum at 1. simpl. rewrite fold_sum_shift. lra. Qed.

Lemma sum_nonneg (l : list Q) : Forall (Qle 0) l -> 0 <= Py.sum l.
Proof.
  induction 1 as [|x l Hx _ IH].
  - unfold Py.sum. simpl. lra.
  - rewrite sum_cons. lra.
Qed.

Lemma length_insert_desc (x : Q) (l : list Q) :
  length (Py.insert_desc x l) = S (length l).
Proof.
  induction l as [|y l IH]; simpl; [reflexivity|].
  destruct (Qle_bool y x); simpl; [reflexivity | now rewrite IH].
Qed.

Lemma length_sorted_reverse (l : list Q) :
  length (Py.sorted_reverse l) = length l.
Proof.
  induction l as [|x l IH]; simpl; [reflexivity|].
  rewrite length_insert_desc. now rewrite IH.
Qed.

End PyFacts.

(** ** The metrics *)

Section MetricsFacts.

Local Open Scope Q_scope.

Import Metrics.

Lemma nakamoto_scan_bound (target c : Q) (l : list Q) :
  forall i n, nakamoto_scan target c i l = Some n -> (n <= i + length l)%nat.
Proof.
  revert c. induction l as [|x l IH]; intros c i n; simpl; [discriminate|].
  destruct (Qle_bool target (c + x)).
  - intros [= <-]. lia.
  - intros Hscan. apply IH in Hscan. lia.
Qed.

Lemma nakamoto_scan_lower (target c : Q) (l : list Q) :
  forall i n, nakamoto_scan target c i l = Some n -> (i < n)%nat.
Proof.
  revert c. induction l as [|x l IH]; intros c i n; simpl; [discriminate|].
  destruct (Qle_bool target (c + x)).
  - intros [= <-]. lia.
  - intros Hscan. apply IH in Hscan. lia.
Qed.

(** A lower target is reached no later. *)
Lemma nakamoto_scan_mono (target1 target2 : Q) (l : list Q) :
  target1 <= target2 ->
  forall c i n2, nakamoto_scan target2 c i l = Some n2 ->
  exists n1, nakamoto_scan target1 c i l = Some n1 /\ (n1 <= n2)%nat.
Proof.
  intros Hle. induction l as [|x l IH]; intros c i n2; simpl; [discriminate|].
  destruct (Qle_bool target2 (c + x)) eqn:E2.
  - intros [= <-]. apply Qle_bool_iff in E2.
    assert (E1 : Qle_bool target1 (c + x) = true)
      by (apply Qle_bool_iff; lra).
    rewrite E1. eauto.
  - intros Hscan. destruct (Qle_bool target1 (c + x)).
    + exists (S i). split; [reflexivity|].
      apply nakamoto_scan_lower in Hscan. lia.
    + apply IH. exact Hscan.
Qed.

(** C10. For a stake vector of non-negative entries and thresholds
    [t1 <= t2], [nakamoto_coefficient(stakes, t1)] is at most
    [nakamoto_coefficient(stakes, t2)]: lowering the threshold never
    raises the Nakamoto coefficient. *)
Theorem nakamoto_coefficient_monotone (stakes : list Q) (t1 t2 : Q) :
  Forall (Qle 0) stakes -> t1 <= t2 ->
  (nakamoto_coefficient stakes t1 <= nakamoto_coefficient stakes t2)%nat.
Proof.
  intros Hpos Ht. unfold nakamoto_coefficient.
  destruct stakes as [|x rest]; [lia|].
  set (data := x :: rest) in *.
  destruct (Qeq_bool (Py.sum data) 0); [lia|].
  assert (Htarget : Py.sum data * t1 <= Py.sum data * t2).
  { pose proof (sum_nonneg data Hpos). nra. }
  destruct (nakamoto_scan (Py.sum data * t2) 0 0 (Py.sorted_reverse data))
    as [n2|] eqn:E2.
  - destruct (nakamoto_scan_mono _ _ _ Htarget _ _ _ E2) as (n1 & -> & Hn).
    exact Hn.
  - destruct (nakamoto_scan (Py.sum data * t1) 0 0 (Py.sorted_reverse data))
      as [n1|] eqn:E1; [|lia].
    apply nakamoto_scan_bound in E1.
    rewrite length_sorted_reverse in E1. exact E1.
Qed.

End MetricsFacts.

(** ** The two HHI functions against the specification's HHI *)

Section HHIFacts.

Local Open Scope Q_scope.

Import Metrics.

Lemma fillna_filter (col : Analysis.column) :
  filter Py.is_positive (map (fun o => default 0 o) col)
  = omap Spec.positive_entry col.
Proof.
  induction col as [|o col IH]; [reflexivity|].
  cbn [map omap list_omap]. rewrite filter_cons, IH.
  destruct (decide (Py.is_positive (default 0 o))) as [Hd|Hd];
    destruct o as [x|]; unfold Py.is_positive in Hd; cbn in Hd |- *.
  - now rewrite Hd.
  - discriminate.
  - apply not_true_is_false in Hd. now rewrite Hd.
  - reflexivity.
Qed.

Lemma positive_entries_of_floats (data : list Q) :
  omap Spec.positive_entry (Some <$> data) = filter Py.is_positive data.
Proof.
  induction data as [|x data IH]; [reflexivity|].
  cbn [fmap list_fmap omap list_omap]. rewrite filter_cons.
  destruct (decide (Py.is_positive x)) as [Hd|Hd];
    unfold Py.is_positive in Hd; cbn.
  - rewrite Hd. f_equal. exact IH.
  - apply not_true_is_false in Hd. rewrite Hd. exact IH.
Qed.

(** Dropping the zero entries of a non-negative vector changes no sum of
    terms that vanish at zero. *)
Lemma sum_map_filter_positive (f : Q -> Q) (data : list Q) :
  (forall x, x == 0 -> f x == 0) ->
  Forall (Qle 0) data ->
  Py.sum (map f (filter Py.is_positive data)) == Py.sum (map f data).
Proof.
  intros Hf. induction 1 as [|x data Hx _ IH]; [reflexivity|].
  rewrite filter_cons.
  destruct (decide (Py.is_positive x)) as [Hd|Hd]; cbn [map].
  - rewrite !sum_cons, IH. reflexivity.
  - unfold Py.is_positive in Hd. apply not_true_is_false in Hd.
    apply Qlt_bool_false in Hd. rewrite sum_cons, IH.
    rewrite (Hf x); lra.
Qed.

Lemma sum_filter_positive (data : list Q) :
  Forall (Qle 0) data ->
  Py.sum (filter Py.is_positive data) == Py.sum data.
Proof.
  intros Hpos.
  pose proof (sum_map_filter_positive (fun x => x) data) as Hs.
  rewrite !map_id in Hs. apply Hs; [intros; assumption | exact Hpos].
Qed.

Lemma sum_map_ext (f g : Q -> Q) (l : list Q) :
  (forall x, f x == g x) -> Py.sum (map f l) == Py.sum (map g l).
Proof.
  intros Hfg. induction l as [|x l IH]; [reflexivity|].
  cbn [map]. rewrite !sum_cons, IH, Hfg. reflexivity.
Qed.

Lemma Qeq_bool_congr (x y : Q) : x == y -> Qeq_bool x 0 = Qeq_bool y 0.
Proof.
  intros Hxy. destruct (Qeq_bool y 0) eqn:E.
  - apply Qeq_bool_iff. apply Qeq_bool_iff in E. lra.
  - destruct (Qeq_bool x 0) eqn:E'; [|reflexivity].
    apply Qeq_bool_iff in E'.
    assert (Hy : Qeq_bool y 0 = true) by (apply Qeq_bool_iff; lra).
    congruence.
Qed.

(** C4 (as amended). [calculate_hhi_coefficient] of the chain analysis is
    the specification's HHI on every column, with and without
    normalisation.  The simulator's [HHI_coefficient] drops nothing and
    has no normalisation; on a vector of non-negative entries it equals
    the specification's HHI without normalisation. *)
Theorem hhi_functions_against_spec :
  (forall (col : Analysis.column) (normalize : bool),
     Analysis.calculate_hhi_coefficient col normalize
     = Spec.HHI col normalize)
  /\ (forall data : list Q,
        Forall (Qle 0) data ->
        HHI_coefficient data == Spec.HHI (Some <$> data) false).
Proof.
  split.
  - intros col normalize.
    unfold Analysis.calculate_hhi_coefficient, Spec.HHI.
    rewrite fillna_filter, map_map. reflexivity.
  - intros data Hpos. unfold Spec.HHI, HHI_coefficient.
    rewrite positive_entries_of_floats. cbn [andb].
    pose proof (sum_filter_positive data Hpos) as Htotal.
    rewrite (Qeq_bool_congr _ _ Htotal).
    destruct data as [|x rest].
    + reflexivity.
    + set (data := x :: rest) in *.
      destruct (Qeq_bool (Py.sum data) 0); [reflexivity|].
      rewrite map_map.
      rewrite (sum_map_filter_positive
                 (fun s => (s / Py.sum (filter Py.is_positive data)) ^ 2));
        [| intros y Hy; rewrite Hy; simpl; unfold Qdiv; lra | exact Hpos].
      apply sum_map_ext. intros y. rewrite Htotal. reflexivity.
Qed.

End HHIFacts.

(** ** The consensus selectors *)

Section SelectorFacts.

Context `{RT : Runtime}.

Local Open Scope Q_scope.

Import Metrics Consensus.

(** C2. For each of the seven algorithm tags, [consensus] on an empty
    stake vector raises [ValueError] (whatever [t] is) and draws nothing:
    no position is returned. *)
Theorem consensus_empty_raises (pos : PoS) (t : Q) (g : rng) :
  consensus pos [] t g = (Raised ValueError, g).
Proof.
  destruct pos; try reflexivity.
  cbn. unfold gini_stabilized_consensus.
  destruct (Qeq_bool t (-1)); reflexivity.
Qed.

Lemma max2_epsilon (stake : Q) :
  epsilon <= stake -> Py.max2 stake epsilon = stake.
Proof.
  intros Hle. unfold Py.max2.
  apply Qlt_bool_false in Hle. now rewrite Hle.
Qed.

(** C5 (as amended). On a stake vector whose entries are all at least
    [epsilon = 1e-8], [log_weighted_consensus] and
    [srsw_weighted_consensus] return the same result from the same
    position of the random stream. *)
Theorem log_weighted_is_srsw_above_epsilon (peers : list Q) (g : rng) :
  Forall (Qle epsilon) peers ->
  log_weighted_consensus peers g = srsw_weighted_consensus peers g.
Proof.
  intros Hge. unfold log_weighted_consensus, srsw_weighted_consensus.
  assert (Hw : map (fun stake => np_sqrt (Py.max2 stake epsilon)) peers
               = map (fun stake => np_sqrt stake) peers).
  { induction Hge as [|x l Hx _ IH]; [reflexivity|].
    cbn [map]. now rewrite IH, (max2_epsilon x Hx). }
  rewrite Hw. reflexivity.
Qed.

Lemma randint_below_valid (n : nat) (g : rng) :
  (0 < n)%nat -> (fst (randint_below n g) < n)%nat.
Proof. intros Hn. cbn. apply Nat.mod_upper_bound. lia. Qed.

(** C6 (as amended). On a non-empty stake vector whose total selection
    weight is [0], every variant returns the position drawn by
    [random.randint(0, len(peers) - 1)], a valid position, and raises
    nothing; for [GINI_STABILIZED] this needs [t] different from [-1]. *)
Theorem zero_weight_falls_back_to_randint
    (pos : PoS) (stakes : list Q) (t : Q) (g : rng) :
  stakes <> [] ->
  Spec.zero_total_weight pos stakes ->
  (pos = GINI_STABILIZED -> ~ t == -1) ->
  consensus pos stakes t g
  = (Normal (random_bits g mod length stakes)%nat, S g)
  /\ (random_bits g mod length stakes < length stakes)%nat.
Proof.
  intros Hne Hzero Ht. split.
  - destruct stakes as [|x rest]; [congruence|].
    destruct pos;
      cbv beta iota delta [Spec.zero_total_weight Spec.selection_total]
        in Hzero;
      try apply Qeq_bool_iff in Hzero;
      cbn [consensus];
      unfold weighted_consensus, opposite_weighted_consensus,
        gini_stabilized_consensus, log_weighted_consensus, desw_consensus,
        srsw_weighted_consensus, random_consensus;
      try (rewrite Hzero; reflexivity); try reflexivity.
    destruct (Qeq_bool t (-1)) eqn:Et.
    + apply Qeq_bool_iff in Et. destruct Ht; [reflexivity | exact Et].
    + rewrite Hzero. reflexivity.
  - apply Nat.mod_upper_bound. destruct stakes; [congruence | cbn; lia].
Qed.

Lemma p_dynamic_of_clamp (gini_stake : Q) :
  p_dynamic_of gini_stake == Spec.clamp (1 - gini_stake) (2 # 10) (8 # 10)
  /\ 2 # 10 <= p_dynamic_of gini_stake <= 8 # 10.
Proof.
  unfold p_dynamic_of, Spec.clamp, Py.max2, Py.min2.
  set (x := 1 - gini_stake).
  destruct (Py.Qlt_bool x (8 # 10)) eqn:E1;
    destruct (Py.Qlt_bool (2 # 10) x) eqn:E2;
    destruct (Py.Qlt_bool x (2 # 10)) eqn:E3;
    destruct (Py.Qlt_bool (8 # 10) x) eqn:E4;
    try (destruct (Py.Qlt_bool (2 # 10) (8 # 10)) eqn:E5);
    rewrite ?Qlt_bool_iff, ?Qlt_bool_false in *;
    lra.
Qed.

(** C9. The exponent [desw_consensus] raises the stakes to is
    [clamp(1 - gini(stakes), 0.2, 0.8)]: whatever the Gini value, it lies
    in [[0.2, 0.8]], and on a non-empty stake vector with a positive total
    the selector samples from the weights [stake ** p] with that [p]. *)
Theorem desw_exponent_is_clamped :
  (forall gini_stake : Q,
     p_dynamic_of gini_stake
       == Spec.clamp (1 - gini_stake) (2 # 10) (8 # 10)
     /\ 2 # 10 <= p_dynamic_of gini_stake <= 8 # 10)
  /\ (forall (peers : list Q) (g : rng),
        peers <> [] -> 0 < Py.sum peers ->
        let p := p_dynamic_of (gini peers) in
        let power_weights := map (fun x => np_power x p) peers in
        desw_consensus peers g
        = (Normal (select
                     (Py.cumsum (map (fun w => w / Py.sum power_weights)
                                     power_weights))
                     (random_random g) peers), S g)).
Proof.
  split; [exact p_dynamic_of_clamp|].
  intros peers g Hne Htotal p power_weights. unfold desw_consensus.
  destruct peers as [|x rest]; [congruence|].
  destruct (Qeq_bool (Py.sum (x :: rest)) 0) eqn:E.
  - apply Qeq_bool_iff in E. lra.
  - reflexivity.
Qed.

End SelectorFacts.

(** ** Peer churn *)

Section ChurnFacts.

Context `{RT : Runtime}.

Local Open Scope Q_scope.

Import Churn RunConditions.

(** [stakes[random.randint(0, len(stakes) - 1)]] is always in range. *)
Lemma new_stake_returns (stakes : list Q) (join_amount : NewEntry) (g : rng) :
  exists v g', new_stake stakes join_amount g = (Normal v, g').
Proof.
  unfold new_stake.
  destruct join_amount, stakes as [|x rest]; eauto.
  cbn [randint_below].
  destruct (lookup_lt_is_Some_2 (x :: rest)
              (random_bits g mod length (x :: rest))%nat) as [s Hs].
  { apply Nat.mod_upper_bound. cbn. lia. }
  rewrite Hs. eauto.
Qed.

(** [try_to_join] only appends: to the stakes, and to the corrupted list
    the positions of peers it has just appended. *)
Lemma try_to_join_appends (depth : nat) :
  forall stakes corrupted p join_amount pc g e stakes' corrupted' g',
  try_to_join depth stakes corrupted p join_amount pc g
  = (e, (stakes', corrupted'), g') ->
  stakes `prefix_of` stakes'
  /\ exists new, corrupted' = corrupted ++ new
       /\ Forall (fun pos => (length stakes <= pos < length stakes')%nat) new.
Proof.
  induction depth as [|depth IH];
    intros stakes corrupted p join_amount pc g e stakes' corrupted' g'; cbn.
  - intros [= <- <- <- <-]. split; [reflexivity|].
    exists []. rewrite app_nil_r. auto.
  - destruct (Qle_bool (random_random g) p).
    + destruct (new_stake_returns stakes join_amount (S g)) as (v & g1 & ->).
      intros Hrec. apply IH in Hrec as (Hpre & new & -> & Hnew).
      rewrite length_app in *. cbn [length] in *.
      apply prefix_length in Hpre as Hlen. rewrite length_app in Hlen.
      cbn [length] in Hlen.
      split; [etrans; [apply prefix_app_r; reflexivity | exact Hpre]|].
      destruct (Qle_bool (random_random g1) pc).
      * exists ((length stakes + 1 - 1)%nat :: new).
        rewrite <- app_assoc. split; [reflexivity|].
        constructor; [lia|].
        eapply Forall_impl; [exact Hnew|]. cbn. intros; lia.
      * exists new. split; [reflexivity|].
        eapply Forall_impl; [exact Hnew|]. cbn. intros; lia.
    + intros [= <- <- <- <-]. split; [reflexivity|].
      exists []. rewrite app_nil_r. auto.
Qed.

(** A failed first draw leaves everything as it was. *)
Lemma try_to_join_idle (depth : nat) stakes corrupted p join_amount pc g :
  p < random_random g ->
  try_to_join (S depth) stakes corrupted p join_amount pc g
  = (None, (stakes, corrupted), S g).
Proof.
  intros Hp. cbn. apply Qle_bool_false in Hp. now rewrite Hp.
Qed.

(** With three consecutive draws above [p] close enough ahead, the
    retries end before the activations run out. *)
Lemma try_to_join_settles (depth : nat) :
  forall stakes corrupted p join_amount pc g m,
  (g <= m + 2)%nat -> (m + 2 < g + 2 * depth)%nat -> calm_at p m ->
  (try_to_join depth stakes corrupted p join_amount pc g).1.1 = None.
Proof.
  induction depth as [|depth IH];
    intros stakes corrupted p join_amount pc g m Hlo Hhi Hcalm; [lia|].
  cbn. destruct (Qle_bool (random_random g) p) eqn:E; [|reflexivity].
  apply Qle_bool_iff in E.
  assert (Hfar : (g + 3 <= m + 2)%nat).
  { destruct (decide (g + 3 <= m + 2)%nat) as [|Hn]; [assumption|].
    assert (Hj : (g - m < 3)%nat) by lia.
    specialize (Hcalm (g - m)%nat Hj).
    destruct (decide (m <= g)%nat).
    - replace (m + (g - m))%nat with g in Hcalm by lia. lra.
    - exfalso. lia. }
  destruct (new_stake_returns stakes join_amount (S g)) as (v & g1 & Hv).
  rewrite Hv.
  assert (Hg1 : (g1 = S g \/ g1 = S (S g))%nat).
  { revert Hv. unfold new_stake.
    destruct join_amount, stakes as [|x rest]; cbn;
      try (intros [= _ <-]; auto).
    destruct (_ !! _); intros [= _ <-]; auto. }
  apply (IH _ _ _ _ _ _ m); [lia | lia | exact Hcalm].
Qed.

Lemma try_to_leave_length stakes p g :
  (length stakes - 1 <= length (try_to_leave stakes p g).1 <= length stakes)%nat.
Proof.
  unfold try_to_leave. destruct stakes as [|x rest]; [cbn; lia|].
  cbn [random randint_below]. destruct (Qle_bool _ _).
  - cbn [fst]. rewrite length_delete.
    + cbn. lia.
    + apply lookup_lt_is_Some_2, Nat.mod_upper_bound. cbn. lia.
  - cbn. lia.
Qed.

Lemma try_to_leave_idle stakes p g :
  p < random_random g -> (try_to_leave stakes p g).1 = stakes.
Proof.
  intros Hp. unfold try_to_leave. destruct stakes as [|x rest]; [reflexivity|].
  cbn [random]. apply Qle_bool_false in Hp. now rewrite Hp.
Qed.

End ChurnFacts.

(** ** Every selector returns a valid position on a non-empty vector *)

Section SelectionFacts.

Context `{RT : Runtime}.

Local Open Scope Q_scope.

Import Metrics Consensus RunConditions.

Lemma length_cumsum_from (acc : Q) (l : list Q) :
  length (Py.cumsum_from acc l) = length l.
Proof.
  revert acc. induction l as [|x l IH]; intros acc; cbn; [|rewrite IH];
    reflexivity.
Qed.

Lemma length_cumsum (l : list Q) : length (Py.cumsum l) = length l.
Proof. apply length_cumsum_from. Qed.

Lemma first_reaching_bound (r : Q) (cum : list Q) :
  forall i j, first_reaching r i cum = Some j -> (j < i + length cum)%nat.
Proof.
  induction cum as [|c cum IH]; intros i j; cbn; [discriminate|].
  destruct (Qle_bool r c).
  - intros [= <-]. lia.
  - intros Hj. apply IH in Hj. lia.
Qed.

Lemma select_valid (cum : list Q) (r : Q) (peers : list Q) :
  peers <> [] -> (length cum <= length peers)%nat ->
  (select cum r peers < length peers)%nat.
Proof.
  intros Hne Hlen. unfold select.
  destruct (first_reaching r 0 cum) as [j|] eqn:E; cbn.
  - apply first_reaching_bound in E. lia.
  - destruct peers; [congruence | cbn; lia].
Qed.

Lemma randint_valid (peers : list Q) (g : rng) :
  peers <> [] -> (random_bits g mod length peers < length peers)%nat.
Proof.
  intros Hne. apply Nat.mod_upper_bound. destruct peers; [congruence|].
  cbn. lia.
Qed.

Lemma sample_valid (peers weights : list Q) (total : Q) (g : rng) :
  peers <> [] -> length weights = length peers ->
  valid_pick peers
    (if Qeq_bool total 0
     then let '(i, g) := randint_below (length peers) g in (Normal i, g)
     else
       let cumulative_probabilities :=
         Py.cumsum (map (fun x => x / total) weights) in
       let '(random_number, g) := random g in
       (Normal (select cumulative_probabilities random_number peers), g)).
Proof.
  intros Hne Hlen. destruct (Qeq_bool total 0); cbn [random randint_below].
  - eexists _, _. split; [reflexivity | now apply randint_valid].
  - eexists _, _. split; [reflexivity|].
    apply select_valid; [exact Hne|].
    rewrite length_cumsum, length_map. lia.
Qed.

Lemma consensus_valid (pos : PoS) (stakes : list Q) (t : Q) (g : rng) :
  stakes <> [] ->
  (pos = GINI_STABILIZED -> Qeq_bool t (-1) = false) ->
  valid_pick stakes (consensus pos stakes t g).
Proof.
  intros Hne Ht.
  destruct stakes as [|x rest]; [congruence|].
  destruct pos; cbn [consensus];
    unfold weighted_consensus, opposite_weighted_consensus,
      gini_stabilized_consensus, log_weighted_consensus, desw_consensus,
      srsw_weighted_consensus, random_consensus;
    rewrite ?Ht by reflexivity; cbv beta iota.
  - now apply sample_valid.
  - apply sample_valid; [exact Hne | now rewrite length_map].
  - destruct (Qeq_bool (Py.sum (x :: rest)) 0).
    + cbn [randint_below].
      eexists _, _. split; [reflexivity | now apply randint_valid].
    + unfold lerp_vector.
      match goal with
      | |- context [(length ?a =? length ?b)%nat] =>
        assert (Ha : length a = length (x :: rest))
          by (destruct (Qeq_bool _ 0);
              now rewrite length_cumsum, length_map, ?length_map);
        assert (Hb : length b = length (x :: rest))
          by now rewrite length_cumsum, length_map
      end.
      rewrite Ha, Hb, Nat.eqb_refl. cbn [random].
      eexists _, _. split; [reflexivity|].
      apply select_valid; [exact Hne|].
      rewrite length_zip_with, Ha, Hb. lia.
  - apply sample_valid; [exact Hne | now rewrite length_map].
  - destruct (Qeq_bool (Py.sum (x :: rest)) 0); cbn [random randint_below].
    + eexists _, _. split; [reflexivity | now apply randint_valid].
    + eexists _, _. split; [reflexivity|].
      apply select_valid; [exact Hne|].
      rewrite length_cumsum, !length_map. lia.
  - apply sample_valid; [exact Hne | now rewrite length_map].
  - cbn [randint_below].
    eexists _, _. split; [reflexivity | now apply randint_valid].
Qed.

End SelectionFacts.

(** ** One epoch *)

(** Split the body of an epoch at each call that can end it: first at
    the join, then at the selection and the settlement. *)
Ltac break_join :=
  let e1 := fresh "e1" in
  let stakes1 := fresh "stakes1" in
  let corrupted1 := fresh "corrupted1" in
  let g1 := fresh "g1" in
  let Ejoin := fresh "Ejoin" in
  destruct (Churn.try_to_join _ _ _ _ _ _ _)
    as [[e1 [stakes1 corrupted1]] g1] eqn:Ejoin;
  destruct e1 as [e1|].

Ltac break_leave :=
  let stakes2 := fresh "stakes2" in
  let g2 := fresh "g2" in
  let Eleave := fresh "Eleave" in
  destruct (Churn.try_to_leave _ _ _) as [stakes2 g2] eqn:Eleave.

Ltac break_selection :=
  let Epos := fresh "Epos" in
  let Epick := fresh "Epick" in
  let Esettle := fresh "Esettle" in
  destruct (proof_of_stake _) eqn:Epos;
  (destruct (Consensus.consensus _ _ _ _) as [[?v|?e] ?g3] eqn:Epick;
   [destruct (Simulator.settle _ _ _ _ _)
      as [[?stakes3|?e] ?g4] eqn:Esettle|]).

Ltac break_epoch :=
  unfold Simulator.epoch; break_join; [| break_leave; break_selection].

Section EpochFacts.

Context `{RT : Runtime}.

Local Open Scope Q_scope.

Import Metrics Consensus Churn Simulator RunConditions.

Lemma settle_length params stakes corrupted validator g stakes' g' :
  settle params stakes corrupted validator g = (Normal stakes', g') ->
  length stakes' = length stakes.
Proof.
  unfold settle.
  destruct (bool_decide _); [cbn [random]|];
    (destruct (stakes !! validator); [|discriminate]);
    repeat match goal with |- context [if ?b then _ else _] => destruct b end;
    intros [= <- _]; apply length_insert.
Qed.

Lemma settle_returns params stakes corrupted validator g :
  (validator < length stakes)%nat ->
  exists stakes' g',
    settle params stakes corrupted validator g = (Normal stakes', g').
Proof.
  intros Hv. apply lookup_lt_is_Some_2 in Hv as [stake Hstake].
  unfold settle.
  destruct (bool_decide _); [cbn [random]|]; rewrite Hstake;
    repeat match goal with |- context [if ?b then _ else _] => destruct b end;
    eauto.
Qed.

(** The corrupted list after an epoch is the one [try_to_join] left:
    neither the leave nor the reward touches it. *)
Lemma epoch_corrupted params scheduled pc i s :
  corrupted (epoch params scheduled pc i s).2
  = (try_to_join recursion_limit
       (stakes s ++ default [] (scheduled !! Z.of_nat i)) (corrupted s)
       (p_join params) (join_amount params) pc (gen s)).1.2.2.
Proof. break_epoch; reflexivity. Qed.

Lemma epoch_corrupted_prefix params scheduled pc i s :
  corrupted s `prefix_of` corrupted (epoch params scheduled pc i s).2.
Proof.
  rewrite epoch_corrupted.
  destruct (try_to_join _ _ _ _ _ _ _) as [[e [stakes' corrupted']] g'] eqn:E.
  apply try_to_join_appends in E as (_ & new & -> & _).
  cbn. now apply prefix_app_r.
Qed.

(** An epoch that ends normally appends one entry to each history; the
    peer count it records is the length of the stakes it leaves. *)
Lemma epoch_histories params scheduled pc i s s' :
  epoch params scheduled pc i s = (None, s') ->
  exists g nc hhi,
    gini_history (hist s') = gini_history (hist s) ++ [g]
    /\ n_peers_history (hist s')
       = n_peers_history (hist s) ++ [length (stakes s')]
    /\ nakamoto_history (hist s') = nakamoto_history (hist s) ++ [nc]
    /\ hhi_history (hist s') = hhi_history (hist s) ++ [hhi].
Proof.
  break_epoch; try discriminate; intros [= <-]; cbn; eauto 10.
Qed.

(** An epoch removes at most one peer. *)
Lemma epoch_length params scheduled pc i s s' :
  epoch params scheduled pc i s = (None, s') ->
  (length (stakes s) - 1 <= length (stakes s'))%nat.
Proof.
  break_epoch; try discriminate; intros [= <-]; cbn;
    apply settle_length in Esettle;
    apply try_to_join_appends in Ejoin as (Hpre%prefix_length & _);
    pose proof (try_to_leave_length stakes1 (p_leave params) g1) as Hl;
    rewrite Eleave in Hl; cbn in Hl;
    rewrite length_app in Hpre; lia.
Qed.

(** The interpolation state stays between [0.5] and [1.5] under a
    constant smoothing step in [[0, 1]]. *)
Lemma lerp_range (t target s : Q) :
  1 # 2 <= t <= 3 # 2 -> 1 # 2 <= target <= 3 # 2 -> 0 <= s <= 1 ->
  1 # 2 <= lerp t target s <= 3 # 2.
Proof. unfold lerp. intros. split; nra. Qed.

Lemma d_range (g θ : Q) : 1 # 2 <= d g θ <= 3 # 2.
Proof. unfold d. destruct (Py.Qlt_bool θ g); lra. Qed.

Lemma epoch_t_range params scheduled pc i s :
  s_type params = CONSTANT -> 0 <= k params <= 1 ->
  1 # 2 <= t s <= 3 # 2 ->
  1 # 2 <= t (epoch params scheduled pc i s).2 <= 3 # 2.
Proof.
  intros Hs Hk Ht.
  break_epoch; cbn; try assumption;
    unfold smoothing_step; rewrite Hs;
    apply lerp_range; auto using d_range.
Qed.

End EpochFacts.

(** ** The loop over the epochs *)

Section LoopFacts.

Context `{RT : Runtime}.

Local Open Scope Q_scope.

Import Metrics Consensus Churn Simulator RunConditions.

Lemma epochs_app params scheduled pc l1 l2 s :
  epochs params scheduled pc (l1 ++ l2) s
  = match epochs params scheduled pc l1 s with
    | (Some e, s') => (Some e, s')
    | (None, s') => epochs params scheduled pc l2 s'
    end.
Proof.
  revert s. induction l1 as [|i l1 IH]; intros s; cbn; [reflexivity|].
  destruct (epoch params scheduled pc i s) as [[e|] s']; [reflexivity|].
  apply IH.
Qed.

Lemma epochs_corrupted_prefix params scheduled pc l s :
  corrupted s `prefix_of` corrupted (epochs params scheduled pc l s).2.
Proof.
  revert s. induction l as [|i l IH]; intros s; cbn; [reflexivity|].
  pose proof (epoch_corrupted_prefix params scheduled pc i s) as Hstep.
  destruct (epoch params scheduled pc i s) as [[e|] s']; cbn in *;
    [exact Hstep|].
  etrans; [exact Hstep | apply IH].
Qed.

Lemma histories_prefix_refl h : histories_prefix h h.
Proof. repeat split; reflexivity. Qed.

Lemma histories_prefix_trans h1 h2 h3 :
  histories_prefix h1 h2 -> histories_prefix h2 h3 -> histories_prefix h1 h3.
Proof.
  intros (?&?&?&?) (?&?&?&?). repeat split; etrans; eassumption.
Qed.

(** A loop that ends normally has appended one entry per epoch to each
    history. *)
Lemma epochs_histories params scheduled pc l :
  forall s s', epochs params scheduled pc l s = (None, s') ->
  histories_prefix (hist s) (hist s')
  /\ length (gini_history (hist s'))
     = (length (gini_history (hist s)) + length l)%nat
  /\ length (n_peers_history (hist s'))
     = (length (n_peers_history (hist s)) + length l)%nat
  /\ length (nakamoto_history (hist s'))
     = (length (nakamoto_history (hist s)) + length l)%nat
  /\ length (hhi_history (hist s'))
     = (length (hhi_history (hist s)) + length l)%nat.
Proof.
  induction l as [|i l IH]; intros s s'; cbn.
  - intros [= <-]. split; [apply histories_prefix_refl | lia].
  - destruct (epoch params scheduled pc i s) as [[e|] s1] eqn:E;
      [discriminate|].
    intros Hrest. apply IH in Hrest as (Hpre & Hg & Hn & Hk & Hh).
    apply epoch_histories in E as (g & nc & hhi & Eg & En & Ek & Eh).
    rewrite Hg, Hn, Hk, Hh, Eg, En, Ek, Eh, !length_app. cbn.
    split; [|lia].
    eapply histories_prefix_trans; [|exact Hpre].
    unfold histories_prefix. rewrite Eg, En, Ek, Eh.
    repeat split; now apply prefix_app_r.
Qed.

(** When the joins end, the stakes after the leave are not empty and the
    guard on [t] cannot fire, the epoch ends normally. *)
Lemma epoch_ends_normally params scheduled pc i s :
  let joined :=
    try_to_join recursion_limit
      (stakes s ++ default [] (scheduled !! Z.of_nat i)) (corrupted s)
      (p_join params) (join_amount params) pc (gen s) in
  joined.1.1 = None ->
  (try_to_leave joined.1.2.1 (p_leave params) joined.2).1 <> [] ->
  (proof_of_stake params = GINI_STABILIZED -> Qeq_bool (t s) (-1) = false) ->
  (epoch params scheduled pc i s).1 = None.
Proof.
  cbn zeta. unfold epoch. break_join; cbn [fst snd]; [discriminate|].
  intros _. break_leave. cbn [fst]. intros Hleft Hguard.
  break_selection; try reflexivity; exfalso.
  all: match goal with
       | H : consensus ?pos ?st ?t ?g = _ |- _ =>
         let Hv := fresh "Hv" in
         assert (Hv : valid_pick st (consensus pos st t g))
           by (apply consensus_valid;
               [exact Hleft | first [exact Hguard | discriminate]]);
         rewrite H in Hv; destruct Hv as (v' & g' & [= <- <-] & Hv)
       end.
  all: match goal with
       | H : settle ?p ?st ?c ?v ?g = (Raised _, _), Hv : (?v < _)%nat |- _ =>
         destruct (settle_returns p st c v g Hv) as (? & ? & Hs);
           rewrite Hs in H; discriminate
       end.
Qed.

End LoopFacts.

(** ** A whole run *)

Section RunFacts.

Context `{RT : Runtime}.

Local Open Scope Q_scope.

Import Metrics Consensus Churn Simulator RunConditions.

Lemma in_range_not_minus_one (t : Q) :
  1 # 2 <= t <= 3 # 2 -> Qeq_bool t (-1) = false.
Proof.
  intros Ht. destruct (Qeq_bool t (-1)) eqn:E; [|reflexivity].
  apply Qeq_bool_iff in E. lra.
Qed.

Lemma epoch_ready params scheduled pc i left s :
  joins_settle (p_join params) -> ready params (S left) s ->
  exists s', epoch params scheduled pc i s = (None, s')
             /\ ready params left s'.
Proof.
  intros Hjoins (Hlen & Hguard).
  assert (Hnormal : (epoch params scheduled pc i s).1 = None).
  { apply epoch_ends_normally.
    - destruct (Hjoins (gen s)) as (m & Hlo & Hhi & Hcalm).
      apply (try_to_join_settles _ _ _ _ _ _ _ m); [lia | lia | exact Hcalm].
    - destruct (try_to_join _ _ _ _ _ _ _)
        as [[e [stakes1 corrupted1]] g1] eqn:Ejoin. cbn [fst snd].
      apply try_to_join_appends in Ejoin as (Hpre%prefix_length & _).
      rewrite length_app in Hpre.
      pose proof (try_to_leave_length stakes1 (p_leave params) g1) as Hl.
      intros Hnil. rewrite Hnil in Hl. cbn in Hl. lia.
    - intros Hpos. apply in_range_not_minus_one, Hguard, Hpos. }
  pose proof (epoch_t_range params scheduled pc i s) as Ht.
  destruct (epoch params scheduled pc i s) as [e s'] eqn:E.
  cbn in Hnormal. subst e. exists s'. split; [reflexivity|].
  apply epoch_length in E. split; [lia|].
  intros Hpos. destruct (Hguard Hpos) as (Hs & Hk & Hrange).
  auto.
Qed.

Lemma epochs_ready params scheduled pc l :
  joins_settle (p_join params) ->
  forall s, ready params (length l) s ->
  exists s', epochs params scheduled pc l s = (None, s').
Proof.
  intros Hjoins. induction l as [|i l IH]; intros s Hready; cbn.
  - eauto.
  - destruct (epoch_ready params scheduled pc i (length l) s Hjoins Hready)
      as (s1 & -> & Hready1).
    apply IH, Hready1.
Qed.

Lemma initial_ready stakes corrupted params g :
  (Z.to_nat (n_epochs params) < length stakes)%nat -> guard_safe params ->
  ready params (length (range (n_epochs params)))
        (initial_run stakes corrupted params g).
Proof.
  intros Hlen Hsafe. unfold range. rewrite length_seq.
  split; [exact Hlen|]. intros Hpos.
  destruct Hsafe as [Hother | (Hs & Hk)]; [congruence|].
  repeat split; try tauto; cbn; apply d_range.
Qed.

Lemma simulate_normal stakes corrupted params g h :
  (simulate stakes corrupted params g).1 = Normal h ->
  exists s, run_epochs stakes corrupted params g (range (n_epochs params))
            = (None, s) /\ hist s = h.
Proof.
  unfold simulate.
  destruct (run_epochs _ _ _ _ _) as [[e|] s]; cbn; [discriminate|].
  intros [= <-]. eauto.
Qed.

(** C1 (as amended). Whenever [simulate] returns, each of the four
    histories has exactly [n_epochs] entries, appended one per epoch in
    epoch order: the run of the first [i] epochs has histories of length
    [i] that are initial parts of the returned ones.  It does return when
    the initial stake vector has more than [n_epochs] entries, the
    retries of [try_to_join] end within the recursion limit, and the
    guard of the Gini-stabilised selector cannot fire; otherwise the run
    may end by an exception and return nothing. *)
Theorem simulate_history_lengths
    (stakes : list Q) (corrupted : list nat) (params : Parameters) (g : rng) :
  (forall h, (simulate stakes corrupted params g).1 = Normal h ->
     full_length params h
     /\ forall i, (i <= Z.to_nat (n_epochs params))%nat ->
          exists s, run_epochs stakes corrupted params g (seq 0 i) = (None, s)
                    /\ history_lengths i (hist s)
                    /\ histories_prefix (hist s) h)
  /\ ((Z.to_nat (n_epochs params) < length stakes)%nat ->
      joins_settle (p_join params) -> guard_safe params ->
      returns_full_histories stakes corrupted params g).
Proof.
  assert (Hpartial : forall h,
    (simulate stakes corrupted params g).1 = Normal h ->
    full_length params h
    /\ forall i, (i <= Z.to_nat (n_epochs params))%nat ->
         exists s, run_epochs stakes corrupted params g (seq 0 i) = (None, s)
                   /\ history_lengths i (hist s)
                   /\ histories_prefix (hist s) h).
  { intros h Hret. apply simulate_normal in Hret as (s & Hrun & <-).
    split.
    - unfold run_epochs in Hrun. apply epochs_histories in Hrun.
      unfold range in Hrun. rewrite length_seq in Hrun. cbn in Hrun.
      unfold full_length, history_lengths. tauto.
    - intros i Hi. unfold run_epochs, range in *.
      replace (Z.to_nat (n_epochs params))
        with (i + (Z.to_nat (n_epochs params) - i))%nat in Hrun by lia.
      rewrite seq_app, epochs_app in Hrun.
      destruct (epochs _ _ _ (seq 0 i) _) as [[e|] si] eqn:Ei;
        [discriminate|].
      exists si. split; [reflexivity|].
      apply epochs_histories in Ei, Hrun. rewrite length_seq in Ei.
      cbn in Ei. unfold history_lengths. tauto. }
  split; [exact Hpartial|].
  intros Hlen Hjoins Hsafe.
  destruct (epochs_ready params (scheduled_joins_dict params)
              (percentage_corrupted stakes corrupted)
              (range (n_epochs params)) Hjoins
              (initial_run stakes corrupted params g)
              (initial_ready _ _ _ _ Hlen Hsafe)) as (s & Hs).
  assert (Hret : (simulate stakes corrupted params g).1 = Normal (hist s)).
  { unfold simulate, run_epochs. now rewrite Hs. }
  exists (hist s). split; [exact Hret|]. apply Hpartial, Hret.
Qed.

End RunFacts.

(** ** Runs without churn *)

Section NoChurnFacts.

Context `{RT : Runtime}.

Local Open Scope Q_scope.

Import Metrics Consensus Churn Simulator RunConditions.

Local Abbreviation no_table := (∅ : gmap Z (list Q)).

Hypothesis positive_draws : forall i, 0 < random_random i.

Variable params : Parameters.

Hypothesis quiet : no_churn params.

Lemma no_scheduled_joins : scheduled_joins_dict params = ∅.
Proof.
  unfold scheduled_joins_dict. destruct quiet as (_ & _ & ->). reflexivity.
Qed.

Lemma join_is_idle stakes corrupted pc g :
  (try_to_join recursion_limit stakes corrupted (p_join params)
               (join_amount params) pc g).1.2.1 = stakes.
Proof.
  destruct recursion_limit as [|depth]; [reflexivity|].
  rewrite try_to_join_idle; [reflexivity|].
  destruct quiet as (Hj & _). pose proof (positive_draws g). lra.
Qed.

Lemma leave_is_idle stakes g :
  (try_to_leave stakes (p_leave params) g).1 = stakes.
Proof.
  apply try_to_leave_idle.
  destruct quiet as (_ & Hl & _). pose proof (positive_draws g). lra.
Qed.

(** Without churn an epoch keeps the number of peers, however it ends. *)
Lemma epoch_keeps_peers pc i s :
  length (stakes (epoch params no_table pc i s).2) = length (stakes s).
Proof.
  pose proof (join_is_idle (stakes s ++ default [] (no_table !! Z.of_nat i))
                (corrupted s) pc (gen s)) as Hjoin.
  rewrite lookup_empty in Hjoin. cbn [default] in Hjoin.
  rewrite app_nil_r in Hjoin.
  unfold epoch. rewrite lookup_empty. cbn [default]. rewrite app_nil_r.
  break_join; cbn in Hjoin; subst; [reflexivity|].
  pose proof (leave_is_idle (stakes s) g1) as Hleave.
  break_leave. cbn in Hleave. subst.
  break_selection; cbn; try reflexivity; eapply settle_length; eassumption.
Qed.

Lemma epochs_keep_peers pc l :
  forall s s', epochs params no_table pc l s = (None, s') ->
  length (stakes s') = length (stakes s)
  /\ n_peers_history (hist s')
     = n_peers_history (hist s) ++ replicate (length l) (length (stakes s)).
Proof.
  induction l as [|i l IH]; intros s s'; cbn.
  - intros [= <-]. now rewrite app_nil_r.
  - pose proof (epoch_keeps_peers pc i s) as Hkeep.
    destruct (epoch params no_table pc i s) as [[e|] s1] eqn:E; [discriminate|].
    cbn in Hkeep. intros Hrest. apply IH in Hrest as (Hlen & Hhist).
    apply epoch_histories in E as (_ & _ & _ & _ & En & _).
    rewrite Hlen, Hhist, En, Hkeep, <- app_assoc. auto.
Qed.

Lemma epoch_quiet_ready pc i s :
  (0 < recursion_limit)%nat -> ready params 0 s ->
  exists s', epoch params no_table pc i s = (None, s') /\ ready params 0 s'.
Proof.
  intros Hlimit (Hlen & Hguard).
  assert (Hnormal : (epoch params no_table pc i s).1 = None).
  { apply epoch_ends_normally.
    - rewrite lookup_empty. cbn [default]. rewrite app_nil_r.
      destruct recursion_limit as [|depth]; [lia|].
      rewrite try_to_join_idle; [reflexivity|].
      destruct quiet as (Hj & _). pose proof (positive_draws (gen s)). lra.
    - rewrite leave_is_idle, join_is_idle, lookup_empty. cbn [default].
      rewrite app_nil_r. intros Hnil. rewrite Hnil in Hlen. cbn in Hlen. lia.
    - intros Hpos. apply in_range_not_minus_one, Hguard, Hpos. }
  pose proof (epoch_t_range params no_table pc i s) as Ht.
  pose proof (epoch_keeps_peers pc i s) as Hkeep.
  destruct (epoch params no_table pc i s) as [e s'] eqn:E.
  cbn in Hnormal, Hkeep, Ht. subst e. exists s'. split; [reflexivity|].
  split; [lia|]. intros Hpos. destruct (Hguard Hpos) as (Hs & Hk & Hrange).
  auto.
Qed.

Lemma epochs_quiet_ready pc l :
  (0 < recursion_limit)%nat ->
  forall s, ready params 0 s -> exists s', epochs params no_table pc l s = (None, s').
Proof.
  intros Hlimit. induction l as [|i l IH]; intros s Hready; cbn; [eauto|].
  destruct (epoch_quiet_ready pc i s Hlimit Hready) as (s1 & -> & Hready1).
  apply IH, Hready1.
Qed.

End NoChurnFacts.

Section JoinRecords.

Context `{RT : Runtime}.

Local Open Scope Q_scope.

Import Metrics Consensus Churn Simulator RunConditions.

(** A joiner whose corruption draw is at most [percentage_corrupted] is
    recorded at its position; one whose draw is above it is not. *)
Lemma try_to_join_records (depth : nat) (stakes : list Q)
    (corrupted : list nat) (p : Q) (join_amount : NewEntry) (pc : Q)
    (g : rng) :
  random_random g <= p ->
  (random_random (new_stake stakes join_amount (S g)).2 <= pc ->
   corrupted ++ [length stakes]
   `prefix_of`
   (try_to_join (S depth) stakes corrupted p join_amount pc g).1.2.2)
  /\ (pc < random_random (new_stake stakes join_amount (S g)).2 ->
      exists new,
        (try_to_join (S depth) stakes corrupted p join_amount pc g).1.2.2
        = corrupted ++ new
        /\ Forall (fun pos => (length stakes < pos)%nat) new).
Proof.
  intros Hp. cbn [try_to_join random].
  apply Qle_bool_iff in Hp. rewrite Hp.
  destruct (new_stake_returns stakes join_amount (S g)) as (v & g1 & E).
  rewrite E. cbn [snd]. split.
  - intros Hpc. apply Qle_bool_iff in Hpc. rewrite Hpc.
    destruct (try_to_join depth _ _ p join_amount pc (S g1))
      as [[e [stakes' corrupted']] g'] eqn:Hrec.
    apply try_to_join_appends in Hrec as (_ & new & -> & _).
    rewrite length_app. cbn [length fst snd].
    replace (length stakes + 1 - 1)%nat with (length stakes) by lia.
    exists new. reflexivity.
  - intros Hpc. apply Qle_bool_false in Hpc. rewrite Hpc.
    destruct (try_to_join depth _ _ p join_amount pc (S g1))
      as [[e [stakes' corrupted']] g'] eqn:Hrec.
    apply try_to_join_appends in Hrec as (_ & new & -> & Hnew).
    exists new. split; [reflexivity|].
    eapply Forall_impl; [exact Hnew|]. cbn. intros pos.
    rewrite length_app. cbn. lia.
Qed.

End JoinRecords.

Section ClaimsOnRuns.

Context `{RT : Runtime}.

Local Open Scope Q_scope.

Import Metrics Consensus Churn Simulator RunConditions.

(** C7 (as amended). With [p_join = 0], [p_leave = 0], no scheduled joins
    and every [random.random()] draw above [0]: whenever [simulate]
    returns, its peer-count history is the initial peer count at each of
    its [n_epochs] entries; and it does return when the stake vector is
    not empty, [try_to_join] may be called at all, and the guard of the
    Gini-stabilised selector cannot fire. *)
Theorem quiet_run_keeps_peer_count
    (stakes : list Q) (corrupted : list nat) (params : Parameters) (g : rng) :
  no_churn params -> (forall i, 0 < random_random i) ->
  (forall h, (simulate stakes corrupted params g).1 = Normal h ->
     n_peers_history h
     = replicate (Z.to_nat (n_epochs params)) (length stakes))
  /\ (stakes <> [] -> (0 < recursion_limit)%nat -> guard_safe params ->
      returns_constant_peer_count stakes corrupted params g).
Proof.
  intros Hquiet Hdraws.
  assert (Hpartial : forall h,
    (simulate stakes corrupted params g).1 = Normal h ->
    n_peers_history h
    = replicate (Z.to_nat (n_epochs params)) (length stakes)).
  { intros h Hret. apply simulate_normal in Hret as (s & Hrun & <-).
    unfold run_epochs in Hrun.
    rewrite (no_scheduled_joins params Hquiet) in Hrun.
    apply (epochs_keep_peers Hdraws params Hquiet) in Hrun as (_ & ->).
    unfold range. now rewrite length_seq. }
  split; [exact Hpartial|].
  intros Hne Hlimit Hsafe.
  assert (Hready : ready params 0 (initial_run stakes corrupted params g)).
  { split; [destruct stakes; [congruence | cbn; lia]|].
    intros Hpos. destruct Hsafe as [Hother | (Hs & Hk)]; [congruence|].
    repeat split; try tauto; cbn; apply d_range. }
  destruct (epochs_quiet_ready Hdraws params Hquiet
              (percentage_corrupted stakes corrupted)
              (range (n_epochs params)) Hlimit _ Hready) as (s & Hs).
  assert (Hret : (simulate stakes corrupted params g).1 = Normal (hist s)).
  { unfold simulate, run_epochs.
    rewrite (no_scheduled_joins params Hquiet). now rewrite Hs. }
  exists (hist s). split; [exact Hret | apply Hpartial, Hret].
Qed.

(** C8. Throughout a run the corrupted list only grows: what it is after
    [i] epochs is an initial part of what it is after any [j >= i] epochs
    (also when the run ends by an exception); within an epoch it is what
    [try_to_join] left, so the removal of a peer by [try_to_leave]
    neither removes nor renumbers an entry; [try_to_join] only appends
    the positions of the peers it has just added; and a peer that joins
    is appended at its position [len(stakes) - 1] when its second draw
    is at most [percentage_corrupted], and is not recorded when that draw
    is above it. *)
Theorem corrupted_only_grows
    (stakes : list Q) (corrupted : list nat) (params : Parameters) (g : rng) :
  (forall i j, (i <= j)%nat ->
     Simulator.corrupted (run_epochs stakes corrupted params g (seq 0 i)).2
     `prefix_of`
     Simulator.corrupted (run_epochs stakes corrupted params g (seq 0 j)).2)
  /\ (forall scheduled pc i s,
        Simulator.corrupted (epoch params scheduled pc i s).2
        = (try_to_join recursion_limit
             (Simulator.stakes s ++ default [] (scheduled !! Z.of_nat i))
             (Simulator.corrupted s) (p_join params) (join_amount params)
             pc (gen s)).1.2.2)
  /\ (forall depth stakes0 corrupted0 p join_amount pc g0
             e stakes' corrupted' g',
        try_to_join depth stakes0 corrupted0 p join_amount pc g0
        = (e, (stakes', corrupted'), g') ->
        exists new,
          corrupted' = corrupted0 ++ new
          /\ Forall (fun pos =>
                       (length stakes0 <= pos < length stakes')%nat) new)
  /\ (forall depth stakes0 corrupted0 p join_amount pc g0,
        random_random g0 <= p ->
        random_random (new_stake stakes0 join_amount (S g0)).2 <= pc ->
        corrupted0 ++ [length stakes0]
        `prefix_of`
        (try_to_join (S depth) stakes0 corrupted0 p join_amount pc g0).1.2.2)
  /\ (forall depth stakes0 corrupted0 p join_amount pc g0,
        random_random g0 <= p ->
        pc < random_random (new_stake stakes0 join_amount (S g0)).2 ->
        exists new,
          (try_to_join (S depth) stakes0 corrupted0 p join_amount pc g0).1.2.2
          = corrupted0 ++ new
          /\ Forall (fun pos => (length stakes0 < pos)%nat) new).
Proof.
  split; [|split; [|split; [|split]]].
  - intros i j Hij. unfold run_epochs.
    replace j with (i + (j - i))%nat by lia.
    rewrite seq_app, epochs_app.
    destruct (epochs _ _ _ (seq 0 i) _) as [[e|] si]; [reflexivity|].
    apply epochs_corrupted_prefix.
  - intros. apply epoch_corrupted.
  - intros depth stakes0 corrupted0 p join_amount pc g0 e stakes' corrupted'
      g' Hjoin.
    apply try_to_join_appends in Hjoin as (_ & Hnew). exact Hnew.
  - intros depth stakes0 corrupted0 p join_amount pc g0 Hp.
    apply (try_to_join_records depth stakes0 corrupted0 p join_amount pc g0 Hp).
  - intros depth stakes0 corrupted0 p join_amount pc g0 Hp.
    apply (try_to_join_records depth stakes0 corrupted0 p join_amount pc g0 Hp).
Qed.

Lemma fresh_not_allocated (heap : gmap loc pyobj) (r : loc) (o : pyobj) :
  heap !! r = Some o -> r <> fresh (dom heap).
Proof.
  intros Hr ->. apply (is_fresh (dom heap)), elem_of_dom. eauto.
Qed.

(** The effect of a call on the caller's heap. *)
Lemma call_simulate_frame
    (heap : gmap loc pyobj) (stakes_ref corrupted_ref : loc)
    (stakes : list Q) (corrupted : list nat) (params : Parameters) (g : rng) :
  heap !! stakes_ref = Some (FloatList stakes) ->
  heap !! corrupted_ref = Some (IntList corrupted) ->
  exists heap' g',
    call_simulate heap stakes_ref corrupted_ref params g
    = Some ((simulate stakes corrupted params g).1, heap', g')
    /\ heap' !! stakes_ref = Some (FloatList stakes)
    /\ heap' !! corrupted_ref = Some (IntList corrupted)
    /\ forall r o, heap !! r = Some o -> heap' !! r = Some o.
Proof.
  intros Hs Hc. unfold call_simulate, deepcopy. rewrite Hs, Hc.
  destruct (simulate stakes corrupted params g) as [result s] eqn:E.
  eexists _, _. split; [reflexivity|].
  assert (Hframe : forall r o, heap !! r = Some o ->
    <[fresh (dom (<[fresh (dom heap) := FloatList stakes]> heap))
        := IntList (Simulator.corrupted s)]>
      (<[fresh (dom heap) := FloatList (Simulator.stakes s)]>
         (<[fresh (dom (<[fresh (dom heap) := FloatList stakes]> heap))
              := IntList corrupted]>
            (<[fresh (dom heap) := FloatList stakes]> heap))) !! r = Some o).
  { intros r o Hr.
    assert (H1 : r <> fresh (dom heap)) by (eapply fresh_not_allocated; eauto).
    assert (H2 : r <> fresh (dom (<[fresh (dom heap) := FloatList stakes]> heap))).
    { eapply fresh_not_allocated. rewrite lookup_insert_ne by auto. eauto. }
    rewrite !lookup_insert_ne by auto. exact Hr. }
  auto.
Qed.


End ClaimsOnRuns.

(** * Further properties of the code

    Lengths, counts, positions, signs, copies and exceptions: what the
    code does whatever the last digit of a float is. *)

(** ** Sorting and sums *)

Section SortingFacts.

Local Open Scope Q_scope.

Lemma insert_asc_perm (x : Q) (l : list Q) : Py.insert_asc x l ≡ₚ x :: l.
Proof.
  induction l as [|y l IH]; cbn; [reflexivity|].
  destruct (Qle_bool x y); [reflexivity|].
  rewrite IH. apply Permutation_swap.
Qed.

Lemma sorted_perm (l : list Q) : Py.sorted l ≡ₚ l.
Proof.
  induction l as [|x l IH]; cbn; [reflexivity|].
  rewrite insert_asc_perm. now rewrite IH.
Qed.

Lemma inject_nat_0 : inject_Z (Z.of_nat 0) == 0.
Proof. reflexivity. Qed.

Lemma inject_nat_S (n : nat) :
  inject_Z (Z.of_nat (S n)) == inject_Z (Z.of_nat n) + 1.
Proof. rewrite Nat2Z.inj_succ. unfold Z.succ. now rewrite inject_Z_plus. Qed.

Lemma sum_nil : Py.sum [] == 0.
Proof. reflexivity. Qed.

Lemma sum_app (l1 l2 : list Q) : Py.sum (l1 ++ l2) == Py.sum l1 + Py.sum l2.
Proof.
  induction l1 as [|x l1 IH]; cbn [app].
  - rewrite sum_nil. lra.
  - rewrite !sum_cons, IH. lra.
Qed.

Lemma sum_replicate (n : nat) (v : Q) :
  Py.sum (replicate n v) == inject_Z (Z.of_nat n) * v.
Proof.
  induction n as [|n IH].
  - cbn [replicate]. rewrite sum_nil, inject_nat_0. lra.
  - cbn [replicate]. rewrite sum_cons, IH, inject_nat_S. lra.
Qed.

End SortingFacts.

Section LengthFacts.

Local Open Scope Q_scope.

Lemma len_positive (data : list Q) : data <> [] -> 1 <= Py.len data.
Proof.
  destruct data as [|x rest]; [congruence|]. intros _. unfold Py.len.
  cbn [length]. rewrite inject_nat_S.
  assert (0 <= inject_Z (Z.of_nat (length rest))).
  { change 0 with (inject_Z 0). rewrite <- Zle_Qle. lia. }
  lra.
Qed.

End LengthFacts.

(** ** The Nakamoto coefficient and the scores built on it *)

Section NakamotoFacts.

Local Open Scope Q_scope.

Import Metrics Scores.

(** What the scan returns: the first prefix, of at least one entry, whose
    sum with the carried sum reaches the target. *)
Lemma nakamoto_scan_some (target : Q) (l : list Q) :
  forall c i n, nakamoto_scan target c i l = Some n ->
  (i < n <= i + length l)%nat
  /\ target <= c + Py.sum (take (n - i) l)
  /\ forall j, (1 <= j < n - i)%nat -> c + Py.sum (take j l) < target.
Proof.
  induction l as [|x l IH]; intros c i n; cbn [nakamoto_scan];
    [discriminate|].
  destruct (Qle_bool target (c + x)) eqn:E.
  - intros [= <-]. apply Qle_bool_iff in E.
    replace (S i - i)%nat with 1%nat by lia. cbn [take length].
    split; [lia|]. split; [rewrite sum_cons, sum_nil; lra | intros; lia].
  - intros Hscan. apply Qle_bool_false in E.
    apply IH in Hscan as (Hn & Hreach & Hshort). cbn [length].
    split; [lia|].
    replace (n - i)%nat with (S (n - S i)) by lia. cbn [take].
    split; [rewrite sum_cons; lra|].
    intros j Hj. destruct j as [|j]; [lia|]. cbn [take]. rewrite sum_cons.
    destruct j as [|j].
    + cbn [take]. rewrite sum_nil. lra.
    + specialize (Hshort (S j) ltac:(lia)). lra.
Qed.

Lemma nakamoto_range (data : list Q) (threshold : Q) :
  (nakamoto_coefficient data threshold <= length data)%nat
  /\ (Py.sum data == 0 -> nakamoto_coefficient data threshold = 0%nat)
  /\ (~ Py.sum data == 0 ->
      (1 <= nakamoto_coefficient data threshold)%nat).
Proof.
  unfold nakamoto_coefficient. destruct data as [|x rest].
  { repeat split; auto. intros H. destruct H. reflexivity. }
  set (data := x :: rest).
  destruct (Qeq_bool (Py.sum data) 0) eqn:E.
  - split; [lia|]. split; [reflexivity|].
    apply Qeq_bool_iff in E. intros H. contradiction.
  - assert (Hne : ~ Py.sum data == 0).
    { intros H. apply Qeq_bool_iff in H. congruence. }
    destruct (nakamoto_scan _ 0 0 (Py.sorted_reverse data)) as [n|] eqn:Es.
    + apply nakamoto_scan_some in Es as (Hn & _).
      rewrite length_sorted_reverse in Hn.
      split; [lia|]. split; [intros H; contradiction | lia].
    + split; [lia|]. split; [intros H; contradiction|]. cbn. lia.
Qed.

(** X3. [nakamoto_coefficient] never exceeds the number of entries; it is
    [0] on a zero total and at least [1] on a non-zero total. *)
Theorem nakamoto_coefficient_bounds (data : list Q) (threshold : Q) :
  (nakamoto_coefficient data threshold <= length data)%nat
  /\ (Py.sum data == 0 -> nakamoto_coefficient data threshold = 0%nat)
  /\ (~ Py.sum data == 0 ->
      (1 <= nakamoto_coefficient data threshold)%nat).
Proof. apply nakamoto_range. Qed.

Lemma nakamoto_le (data : list Q) (t1 t2 : Q) :
  Forall (Qle 0) data -> t1 <= t2 ->
  (nakamoto_coefficient data t1 <= nakamoto_coefficient data t2)%nat.
Proof.
  intros Hpos Ht. unfold nakamoto_coefficient.
  destruct data as [|x rest]; [lia|].
  set (data := x :: rest) in *.
  destruct (Qeq_bool (Py.sum data) 0); [lia|].
  assert (Htarget : Py.sum data * t1 <= Py.sum data * t2).
  { pose proof (sum_nonneg data Hpos). nra. }
  destruct (nakamoto_scan (Py.sum data * t2) 0 0 (Py.sorted_reverse data))
    as [n2|] eqn:E2.
  - destruct (nakamoto_scan_mono _ _ _ Htarget _ _ _ E2) as (n1 & -> & Hn).
    exact Hn.
  - destruct (nakamoto_scan (Py.sum data * t1) 0 0 (Py.sorted_reverse data))
      as [n1|] eqn:E1; [|lia].
    apply nakamoto_scan_bound in E1.
    rewrite length_sorted_reverse in E1. exact E1.
Qed.

(** X5. On data with a non-zero total and at least two entries,
    [decentralization_score] lies between [0] and [1]; on a single entry
    and on empty data it is [0]. *)
Theorem decentralization_score_range (data : list Q) :
  ((length data <= 1)%nat -> decentralization_score data == 0)
  /\ (~ Py.sum data == 0 -> 0 <= decentralization_score data <= 1).
Proof.
  unfold decentralization_score. destruct data as [|x rest].
  { split; intros; lra. }
  set (data := x :: rest).
  destruct (nakamoto_range data (51 # 100)) as (Hup & _ & Hlow).
  destruct (length data =? 1)%nat eqn:En.
  { split; intros; lra. }
  apply Nat.eqb_neq in En. split.
  { intros Hlen. exfalso. cbn in Hlen, En. lia. }
  intros Hne. specialize (Hlow Hne).
  assert (Hlen : (2 <= length data)%nat) by (cbn in *; lia).
  set (n := length data) in *.
  set (nc := nakamoto_coefficient data (51 # 100)) in *.
  assert (Hn : 2 <= inject_Z (Z.of_nat n)).
  { change 2 with (inject_Z 2). rewrite <- Zle_Qle. lia. }
  assert (Hnc1 : 1 <= inject_Z (Z.of_nat nc)).
  { change 1 with (inject_Z 1). rewrite <- Zle_Qle. lia. }
  assert (Hnc2 : inject_Z (Z.of_nat nc) <= inject_Z (Z.of_nat n)).
  { rewrite <- Zle_Qle. lia. }
  split.
  - apply Qle_shift_div_l; lra.
  - apply Qle_shift_div_r; lra.
Qed.

(** X6. On data with a zero total and [n >= 2] entries the Nakamoto
    coefficient is [0], so [decentralization_score] is [n / (n - 1)],
    which is above [1]. *)
Theorem decentralization_score_zero_total (data : list Q) :
  Py.sum data == 0 -> (2 <= length data)%nat ->
  decentralization_score data == Py.len data / (Py.len data - 1)
  /\ 1 < decentralization_score data.
Proof.
  intros Hzero Hlen. unfold decentralization_score.
  destruct data as [|x rest]; [cbn in Hlen; lia|].
  set (data := x :: rest) in *.
  destruct (nakamoto_range data (51 # 100)) as (_ & Hnc & _).
  rewrite (Hnc Hzero).
  destruct (length data =? 1)%nat eqn:En.
  { apply Nat.eqb_eq in En. lia. }
  fold (Py.len data).
  assert (Hn : 2 <= Py.len data).
  { unfold Py.len. change 2 with (inject_Z 2). rewrite <- Zle_Qle. lia. }
  rewrite inject_nat_0.
  assert (E : Py.len data - 0 == Py.len data) by lra.
  rewrite E. split; [reflexivity|].
  apply Qlt_shift_div_l; lra.
Qed.

End NakamotoFacts.

Section AnalysisFacts.

Local Open Scope Q_scope.

Import Metrics Scores.

(** X7. For non-empty data of non-negative entries,
    [nakamoto_coefficient_analysis] has exactly the six keys "25%" to
    "75%", the entry at "51%" is the default Nakamoto coefficient, and the
    coefficients do not decrease from one key to the next. *)
Theorem nakamoto_analysis_is_monotone (data : list Q) :
  data <> [] -> Forall (Qle 0) data ->
  let results := nakamoto_coefficient_analysis data in
  exists a b c d e f : nat,
    results !! "25%"%string = Some a /\ results !! "33%"%string = Some b
    /\ results !! "50%"%string = Some c /\ results !! "51%"%string = Some d
    /\ results !! "66%"%string = Some e /\ results !! "75%"%string = Some f
    /\ (a <= b <= c)%nat /\ (c <= d <= e)%nat /\ (e <= f)%nat
    /\ d = nakamoto_coefficient data default_threshold
    /\ size results = 6%nat.
Proof.
  intros Hne Hpos results. subst results.
  unfold nakamoto_coefficient_analysis.
  destruct data as [|x rest]; [congruence|]. set (data := x :: rest) in *.
  unfold thresholds. cbn [fold_left].
  change (percent_key (25 # 100)) with "25%"%string.
  change (percent_key (33 # 100)) with "33%"%string.
  change (percent_key (50 # 100)) with "50%"%string.
  change (percent_key (51 # 100)) with "51%"%string.
  change (percent_key (66 # 100)) with "66%"%string.
  change (percent_key (75 # 100)) with "75%"%string.
  eexists _, _, _, _, _, _.
  repeat (split; [simplify_map_eq; reflexivity|]).
  assert (Hle : forall t1 t2, t1 <= t2 ->
    (nakamoto_coefficient data t1 <= nakamoto_coefficient data t2)%nat)
    by (intros; now apply nakamoto_le).
  split; [split; apply Hle; lra|]. split; [split; apply Hle; lra|].
  split; [apply Hle; lra|]. split; [reflexivity|].
  rewrite !map_size_insert_None; [rewrite map_size_empty; reflexivity|..];
    simplify_map_eq; reflexivity.
Qed.

End AnalysisFacts.

(** ** What the selectors pick *)

Section PickFacts.

Context `{RT : Runtime}.

Local Open Scope Q_scope.

Import Metrics Consensus RunConditions.

(** [max(l)] is an entry of the list and at least every entry. *)
Lemma max_is_greatest (x : Q) (rest : list Q) :
  Py.max x rest ∈ x :: rest /\ Forall (fun y => y <= Py.max x rest) (x :: rest).
Proof.
  unfold Py.max. revert x. induction rest as [|y rest IH]; intros x.
  - cbn. split; [left | repeat constructor; lra].
  - cbn [fold_left].
    destruct (Py.Qlt_bool x y) eqn:E.
    + apply Qlt_bool_iff in E. destruct (IH y) as (Hin & Hall).
      split; [right; exact Hin|].
      inversion Hall as [|? ? Hy Hrest]; subst.
      constructor; [lra|]. constructor; assumption.
    + apply Qlt_bool_false in E. destruct (IH x) as (Hin & Hall).
      inversion Hall as [|? ? Hx Hrest]; subst.
      split.
      * apply elem_of_cons in Hin as [->|Hin]; [left | right; right; exact Hin].
      * constructor; [exact Hx|]. constructor; [lra | exact Hrest].
Qed.

(** X12. With a single peer every algorithm returns position [0]
    (for [GINI_STABILIZED], when [t] is not [-1]). *)
Theorem single_peer_is_selected (pos : PoS) (stake t : Q) (g : rng) :
  (pos = GINI_STABILIZED -> ~ t == -1) ->
  exists g', consensus pos [stake] t g = (Normal 0%nat, g').
Proof.
  intros Ht.
  destruct (consensus_valid pos [stake] t g) as (v & g' & Hv & Hlt).
  - discriminate.
  - intros Hpos. destruct (Qeq_bool t (-1)) eqn:E; [|reflexivity].
    apply Qeq_bool_iff in E. destruct (Ht Hpos E).
  - exists g'. rewrite Hv. cbn in Hlt. now replace v with 0%nat by lia.
Qed.

Lemma Qle_bool_proper (r c1 c2 : Q) : c1 == c2 -> Qle_bool r c1 = Qle_bool r c2.
Proof.
  intros Hc. destruct (Qle_bool r c2) eqn:E.
  - apply Qle_bool_iff. apply Qle_bool_iff in E. lra.
  - apply Qle_bool_false. apply Qle_bool_false in E. lra.
Qed.

Lemma first_reaching_proper (r : Q) (l1 l2 : list Q) :
  Forall2 Qeq l1 l2 ->
  forall i, first_reaching r i l1 = first_reaching r i l2.
Proof.
  induction 1 as [|c1 c2 l1 l2 Hc _ IH]; intros i; cbn; [reflexivity|].
  rewrite (Qle_bool_proper r c1 c2 Hc). destruct (Qle_bool r c2); auto.
Qed.

Lemma lerp_at_one (t : Q) (a b : list Q) :
  t == 1 -> length a = length b ->
  Forall2 Qeq (zip_with (fun x y => (1 - t) * x + t * y) a b) b.
Proof.
  intros Ht. revert b. induction a as [|x a IH]; intros [|y b] Hlen;
    cbn in *; try discriminate; constructor.
  - rewrite Ht. lra.
  - apply IH. lia.
Qed.

Lemma lerp_at_zero (t : Q) (a b : list Q) :
  t == 0 -> length a = length b ->
  Forall2 Qeq (zip_with (fun x y => (1 - t) * x + t * y) a b) a.
Proof.
  intros Ht. revert b. induction a as [|x a IH]; intros [|y b] Hlen;
    cbn in *; try discriminate; constructor.
  - rewrite Ht. lra.
  - apply IH. lia.
Qed.

Lemma not_minus_one (t c : Q) : t == c -> ~ c == -1 -> Qeq_bool t (-1) = false.
Proof.
  intros Ht Hc. destruct (Qeq_bool t (-1)) eqn:E; [|reflexivity].
  apply Qeq_bool_iff in E. destruct Hc. lra.
Qed.

(** X13. At [t = 1], [gini_stabilized_consensus] is [weighted_consensus]:
    same result from the same draw, on every stake vector. *)
Theorem gini_stabilized_at_one_is_weighted (peers : list Q) (t : Q) (g : rng) :
  t == 1 -> gini_stabilized_consensus peers t g = weighted_consensus peers g.
Proof.
  intros Ht. unfold gini_stabilized_consensus, weighted_consensus.
  rewrite (not_minus_one t 1 Ht) by (intros H; discriminate H).
  destruct peers as [|x rest]; [reflexivity|].
  destruct (Qeq_bool (Py.sum (x :: rest)) 0); [reflexivity|].
  unfold lerp_vector.
  match goal with
  | |- context [(length ?a =? length ?b)%nat] =>
    assert (Hlen : length a = length b)
      by (destruct (Qeq_bool _ 0);
          now rewrite !length_cumsum, !length_map)
  end.
  rewrite Hlen, Nat.eqb_refl. cbn [random]. unfold select.
  erewrite first_reaching_proper; [reflexivity|].
  apply lerp_at_one; assumption.
Qed.

(** X14. At [t = 0], on stakes with a non-zero total that are not all
    equal to the maximum, [gini_stabilized_consensus] is
    [opposite_weighted_consensus]. *)
Theorem gini_stabilized_at_zero_is_opposite
    (peers : list Q) (t : Q) (g : rng) :
  t == 0 -> ~ Py.sum peers == 0 ->
  match peers with
  | [] => False
  | x :: rest =>
    ~ Py.sum (map (fun peer => Qabs (Py.max x rest - peer)) peers) == 0
  end ->
  gini_stabilized_consensus peers t g = opposite_weighted_consensus peers g.
Proof.
  intros Ht Hne Hopp.
  unfold gini_stabilized_consensus, opposite_weighted_consensus.
  rewrite (not_minus_one t 0 Ht) by (intros H; discriminate H).
  destruct peers as [|x rest]; [contradiction|].
  destruct (Qeq_bool (Py.sum (x :: rest)) 0) eqn:E.
  { apply Qeq_bool_iff in E. contradiction. }
  destruct (Qeq_bool (Py.sum (map _ (x :: rest))) 0) eqn:E'.
  { apply Qeq_bool_iff in E'. contradiction. }
  unfold lerp_vector.
  match goal with
  | |- context [(length ?a =? length ?b)%nat] =>
    assert (Hlen : length a = length b)
      by now rewrite !length_cumsum, !length_map
  end.
  rewrite Hlen, Nat.eqb_refl. cbn [random]. unfold select.
  erewrite first_reaching_proper; [reflexivity|].
  apply lerp_at_zero; assumption.
Qed.

End PickFacts.

(** ** The initial stake distributions *)

Section GeneratorFacts.

Local Open Scope Q_scope.

Import Metrics Generators.

Lemma of_nat_to_nat (n : Z) :
  (0 <= n)%Z -> inject_Z (Z.of_nat (Z.to_nat n)) = of_int n.
Proof. intros Hn. unfold of_int. now rewrite Z2Nat.id. Qed.

Lemma of_int_positive (n : Z) : (0 < n)%Z -> 1 <= of_int n.
Proof.
  intros Hn. unfold of_int. change 1 with (inject_Z 1).
  rewrite <- Zle_Qle. lia.
Qed.

Lemma of_int_inj (n m : Z) : of_int n == inject_Z m -> n = m.
Proof. unfold of_int, Qeq. cbn. lia. Qed.

Lemma uniform_vector (n : Z) (volume : Q) :
  (0 < n)%Z ->
  length (generate_vector_uniform n volume) = Z.to_nat n
  /\ Py.sum (generate_vector_uniform n volume) == volume.
Proof.
  intros Hn. unfold generate_vector_uniform.
  split; [apply length_replicate|].
  rewrite sum_replicate, of_nat_to_nat by lia.
  pose proof (of_int_positive n Hn). field. lra.
Qed.

Lemma length_differences (l : list Q) :
  length (differences l) = (length l - 1)%nat.
Proof.
  unfold differences. rewrite length_zip_with. destruct l; cbn; lia.
Qed.

(** X16. [generate_vector_with_gini] raises [ZeroDivisionError] exactly
    for [n_peers = 0] and [n_peers = 1]; for every other count it returns
    a vector. *)
Theorem gini_distribution_divides_by_zero
    (n_peers : Z) (initial_volume gini_coeff : Q) :
  (generate_vector_with_gini n_peers initial_volume gini_coeff
   = ZeroDivisionError <-> n_peers = 0%Z \/ n_peers = 1%Z)
  /\ (n_peers <> 0%Z -> n_peers <> 1%Z ->
      exists stakes,
        generate_vector_with_gini n_peers initial_volume gini_coeff
        = Computed stakes).
Proof.
  unfold generate_vector_with_gini, divide.
  destruct (Qeq_bool (of_int n_peers) 0) eqn:E0.
  { apply Qeq_bool_iff in E0. apply (of_int_inj n_peers 0) in E0.
    split; [split; auto | intros; lia]. }
  destruct (Qeq_bool ((of_int n_peers - 1) / 2) 0) eqn:E1.
  { apply Qeq_bool_iff in E1.
    assert (Hn : of_int n_peers == inject_Z 1).
    { change (inject_Z 1) with 1.
      assert (H : of_int n_peers - 1 == (of_int n_peers - 1) / 2 * 2)
        by field.
      rewrite E1 in H. lra. }
    apply of_int_inj in Hn.
    split; [split; auto | intros; lia]. }
  assert (Hn0 : n_peers <> 0%Z).
  { intros ->. discriminate. }
  assert (Hn1 : n_peers <> 1%Z).
  { intros ->. discriminate. }
  destruct (map _ (_ ++ [1])) as [|first rest] eqn:Ecum.
  { apply map_eq_nil, app_eq_nil in Ecum as (_ & Hnil). discriminate. }
  split; [split; [discriminate | lia] | eauto].
Qed.

End GeneratorFacts.

Section GiniShape.

Local Open Scope Q_scope.

Import Metrics Generators.

Lemma sum_Forall2 (l1 l2 : list Q) :
  Forall2 Qeq l1 l2 -> Py.sum l1 == Py.sum l2.
Proof.
  induction 1 as [|x y l1 l2 Hxy _ IH]; [reflexivity|].
  rewrite !sum_cons, Hxy, IH. reflexivity.
Qed.

Lemma differences_cons (x y : Q) (l : list Q) :
  differences (x :: y :: l) = (y - x) :: differences (y :: l).
Proof. reflexivity. Qed.

(** The differences of the values of a function with constant step [c],
    followed by a last value [z]. *)
Lemma differences_constant_step (f : Z -> Q) (c z : Q) (k : nat) :
  (forall i, f (i + 1)%Z - f i == c) ->
  forall s,
  Forall2 Qeq
    (differences (map (fun i => f (s + Z.of_nat i)%Z) (seq 0 (S k)) ++ [z]))
    (replicate k c ++ [z - f (s + Z.of_nat k)%Z]).
Proof.
  intros Hstep. induction k as [|k IH]; intros s.
  - cbn. repeat constructor.
  - change (seq 0 (S (S k))) with (0%nat :: seq 1 (S k)).
    rewrite <- seq_shift, map_cons, map_map.
    cbn [app]. 
    assert (Emap : map (fun i => f (s + Z.of_nat (S i))%Z) (seq 0 (S k))
                   = map (fun i => f ((s + 1) + Z.of_nat i)%Z) (seq 0 (S k))).
    { apply map_ext. intros i. f_equal. lia. }
    rewrite Emap. specialize (IH (s + 1)%Z).
    change (seq 0 (S k)) with (0%nat :: seq 1 k) in IH |- *.
    cbn [map app] in IH |- *. rewrite differences_cons.
    cbn [replicate app]. constructor.
    + replace (s + 1 + Z.of_nat 0)%Z with (s + Z.of_nat 0 + 1)%Z by lia.
      apply Hstep.
    + replace (s + Z.of_nat (S k))%Z with (s + 1 + Z.of_nat k)%Z by lia.
      exact IH.
Qed.

End GiniShape.

Section GiniDistribution.

Local Open Scope Q_scope.

Import Metrics Generators.

Variables (n_peers : Z) (initial_volume gini_coeff : Q).

Hypothesis at_least_two : (2 <= n_peers)%Z.

Local Abbreviation small :=
  (Expected.small_share n_peers initial_volume gini_coeff).
Local Abbreviation large :=
  (Expected.large_share n_peers initial_volume gini_coeff).

Lemma of_int_at_least_two : 2 <= of_int n_peers.
Proof.
  unfold of_int. change 2 with (inject_Z 2). rewrite <- Zle_Qle. lia.
Qed.

Lemma Forall2_Qeq_trans (l1 l2 l3 : list Q) :
  Forall2 Qeq l1 l2 -> Forall2 Qeq l2 l3 -> Forall2 Qeq l1 l3.
Proof.
  intros H. revert l3. induction H as [|x y l1 l2 Hxy _ IH]; intros l3 H23;
    inversion H23; subst; constructor; [lra | auto].
Qed.

Lemma gini_distribution_shape :
  exists stakes,
    generate_vector_with_gini n_peers initial_volume gini_coeff
    = Computed stakes
    /\ Forall2 Qeq stakes
         (replicate (Z.to_nat n_peers - 1) small ++ [large]).
Proof.
  pose proof of_int_at_least_two as HN.
  unfold generate_vector_with_gini, divide.
  destruct (Qeq_bool (of_int n_peers) 0) eqn:E0.
  { apply Qeq_bool_iff in E0. lra. }
  destruct (Qeq_bool ((of_int n_peers - 1) / 2) 0) eqn:E1.
  { apply Qeq_bool_iff in E1.
    assert (H : of_int n_peers - 1 == (of_int n_peers - 1) / 2 * 2) by field.
    rewrite E1 in H. lra. }
  remember (of_int n_peers) as N eqn:HNdef.
  set (m := lorenz_slope _ _ _ _).
  assert (Hm : m == 1 - gini_coeff).
  { unfold m, lorenz_slope.
    destruct (Qeq_bool ((N - 1) / N) 0) eqn:E2.
    - apply Qeq_bool_iff in E2.
      assert (H : N - 1 == (N - 1) / N * N) by (field; lra).
      rewrite E2 in H. lra.
    - field. repeat split; lra. }
  unfold range_from.
  destruct (Z.to_nat (n_peers - 1)) as [|k] eqn:Ek; [lia|].
  rewrite map_map, map_app, map_map. cbn [map].
  set (f := fun j : Z => m * (of_int j / N) * initial_volume).
  change (map _ (seq 0 (S k)))
    with (map (fun i => f (1 + Z.of_nat i)%Z) (seq 0 (S k))).
  assert (Hstep : forall i, f (i + 1)%Z - f i == m * initial_volume / N).
  { intros i. unfold f, of_int. rewrite inject_Z_plus.
    change (inject_Z 1) with 1. field. lra. }
  pose proof (differences_constant_step f (m * initial_volume / N)
                (1 * initial_volume) k Hstep 1%Z) as Hdiff.
  change (seq 0 (S k)) with (0%nat :: seq 1 k) in Hdiff |- *.
  cbn [map app] in Hdiff |- *.
  eexists. split; [reflexivity|].
  replace (Z.to_nat n_peers - 1)%nat with (S k) by lia.
  cbn [replicate app]. constructor.
  - unfold f, Expected.small_share. rewrite <- HNdef, Hm.
    change (of_int (1 + Z.of_nat 0)) with 1. field. lra.
  - eapply Forall2_Qeq_trans; [exact Hdiff|].
    apply Forall2_app.
    + clear -Hm HN HNdef. induction k as [|k IH]; cbn [replicate]; constructor;
        [|exact IH].
      unfold Expected.small_share. rewrite <- HNdef, Hm. field. lra.
    + constructor; [|constructor].
      unfold Expected.large_share, Expected.small_share, f.
      rewrite <- HNdef, Hm.
      replace (1 + Z.of_nat k)%Z with (n_peers - 1)%Z by lia.
      assert (EN : of_int (n_peers - 1) == N - 1).
      { rewrite HNdef. unfold of_int, Z.sub.
        rewrite inject_Z_plus, inject_Z_opp. change (inject_Z 1) with 1.
        lra. }
      rewrite EN. field. lra.
Qed.

Lemma two_level_vector :
  0 <= gini_coeff -> 0 <= initial_volume ->
  small <= large
  /\ inject_Z (Z.of_nat (Z.to_nat n_peers - 1)) * small + large
     == initial_volume.
Proof.
  intros Hg Hv. pose proof of_int_at_least_two as HN.
  assert (HK : inject_Z (Z.of_nat (Z.to_nat n_peers - 1)) == of_int n_peers - 1).
  { rewrite Nat2Z.inj_sub, Z2Nat.id by lia. unfold of_int, Z.sub.
    rewrite inject_Z_plus, inject_Z_opp. change (inject_Z (Z.of_nat 1)) with 1.
    lra. }
  rewrite HK. unfold Expected.large_share, Expected.small_share.
  split; [|lra].
  assert (E : initial_volume
              - (of_int n_peers - 1)
                * ((1 - gini_coeff) * initial_volume / of_int n_peers)
              - (1 - gini_coeff) * initial_volume / of_int n_peers
              == gini_coeff * initial_volume) by (field; lra).
  nra.
Qed.

End GiniDistribution.

Section GeneratedVectors.

Local Open Scope Q_scope.

Import Metrics Generators.

Lemma gini_vector
    (n_peers : Z) (initial_volume gini_coeff : Q) :
  (2 <= n_peers)%Z ->
  exists stakes,
    generate_vector_with_gini n_peers initial_volume gini_coeff
    = Computed stakes
    /\ length stakes = Z.to_nat n_peers
    /\ Forall2 Qeq stakes
         (replicate (Z.to_nat n_peers - 1)
            (Expected.small_share n_peers initial_volume gini_coeff)
          ++ [Expected.large_share n_peers initial_volume gini_coeff])
    /\ Py.sum stakes == initial_volume.
Proof.
  intros Hn.
  destruct (gini_distribution_shape n_peers initial_volume gini_coeff Hn)
    as (stakes & Hgen & Hshape).
  exists stakes. split; [exact Hgen|]. split; [|split; [exact Hshape|]].
  - rewrite (Forall2_length _ _ _ Hshape), length_app, length_replicate.
    cbn. lia.
  - rewrite (sum_Forall2 _ _ Hshape), sum_app, sum_replicate, sum_cons,
      sum_nil.
    assert (HK : inject_Z (Z.of_nat (Z.to_nat n_peers - 1))
                 == of_int n_peers - 1).
    { rewrite Nat2Z.inj_sub, Z2Nat.id by lia. unfold of_int, Z.sub.
      rewrite inject_Z_plus, inject_Z_opp.
      change (inject_Z (Z.of_nat 1)) with 1. lra. }
    rewrite HK. unfold Expected.large_share. lra.
Qed.

End GeneratedVectors.

Section RandomDistribution.

Context `{RT : Runtime}.

Local Open Scope Q_scope.

Import Metrics Generators.

Lemma uniform_draws_length (count : nat) (volume : Q) (g : rng) :
  length (uniform_draws count volume g).1 = count
  /\ (uniform_draws count volume g).2 = (g + count)%nat.
Proof.
  revert g. induction count as [|count IH]; intros g; cbn.
  - split; [reflexivity | lia].
  - destruct (IH (S g)) as (Hlen & Hg).
    destruct (uniform_draws count volume (S g)) as [rest g']. cbn in *.
    split; [now rewrite Hlen | lia].
Qed.

Lemma max2_zero_nonneg (stake : Q) : 0 <= Py.max2 0 stake.
Proof.
  unfold Py.max2. destruct (Py.Qlt_bool 0 stake) eqn:E; [|lra].
  apply Qlt_bool_iff in E. lra.
Qed.

Lemma sum_map_rescale (volume total : Q) (l : list Q) :
  Py.sum (map (fun stake => stake * volume / total) l)
  == Py.sum l * volume / total.
Proof.
  induction l as [|x l IH]; cbn [map].
  - rewrite !sum_nil. unfold Qdiv. lra.
  - rewrite !sum_cons, IH. unfold Qdiv. lra.
Qed.

Lemma random_vector (n : Z) (volume : Q) (g : rng) :
  (0 < n)%Z ->
  exists stakes,
    generate_vector_random n volume g
    = (Computed stakes, (g + (Z.to_nat n - 1))%nat)
    /\ length stakes = Z.to_nat n
    /\ Py.sum stakes == volume
    /\ (0 <= volume -> Forall (Qle 0) stakes).
Proof.
  intros Hn. unfold generate_vector_random.
  destruct (n <=? 0)%Z eqn:E0; [lia|].
  destruct (n =? 1)%Z eqn:E1.
  { apply Z.eqb_eq in E1. subst n. exists [volume].
    split; [f_equal; cbn; lia|]. split; [reflexivity|].
    split; [rewrite sum_cons, sum_nil; lra | repeat constructor; assumption]. }
  apply Z.eqb_neq in E1.
  destruct (uniform_draws_length (Z.to_nat (n - 1)) volume g) as (Hlen & Hg).
  destruct (uniform_draws _ volume g) as [draws g'] eqn:Ed. cbn in Hlen, Hg.
  subst g'. replace (Z.to_nat (n - 1)) with (Z.to_nat n - 1)%nat in * by lia.
  assert (Hcut : length (Py.sorted draws) = (Z.to_nat n - 1)%nat)
    by (rewrite (Permutation_length (sorted_perm draws)); exact Hlen).
  destruct (Py.sorted draws) as [|first rest] eqn:Ec.
  { cbn in Hcut. lia. }
  destruct (last (first :: rest)) as [final|] eqn:El;
    [|apply last_None in El; discriminate].
  set (raw := first :: differences (first :: rest) ++ [volume - final]).
  set (stakes := map (fun stake => Py.max2 0 stake) raw).
  assert (Hraw : length stakes = Z.to_nat n).
  { unfold stakes, raw. rewrite length_map. cbn [length].
    rewrite length_app, length_differences. cbn [length] in *. lia. }
  assert (Hpos : Forall (Qle 0) stakes).
  { unfold stakes. apply Forall_map, Forall_forall. intros s _.
    apply max2_zero_nonneg. }
  destruct (Py.Qlt_bool 0 (Py.sum stakes)) eqn:Et.
  - apply Qlt_bool_iff in Et. eexists. split; [reflexivity|].
    split; [now rewrite length_map|]. split.
    + rewrite sum_map_rescale. field. lra.
    + intros Hv. apply Forall_map. eapply Forall_impl; [exact Hpos|].
      cbn. intros s Hs. apply Qle_shift_div_l; [exact Et | nra].
  - destruct (uniform_vector n volume Hn) as (Hul & Hus).
    eexists. split; [reflexivity|]. split; [exact Hul|].
    split; [exact Hus|]. intros Hv.
    unfold generate_vector_uniform. apply Forall_replicate.
    pose proof (of_int_positive n Hn). apply Qle_shift_div_l; lra.
Qed.

End RandomDistribution.

(** ** What churn and settlement do to the stakes *)

Section StakeRangeFacts.

Context `{RT : Runtime}.

Local Open Scope Q_scope.

Import Metrics Consensus Churn Simulator RunConditions.

Lemma min_is_least (x : Q) (rest : list Q) :
  Py.min x rest ∈ x :: rest /\ Forall (fun y => Py.min x rest <= y) (x :: rest).
Proof.
  unfold Py.min. revert x. induction rest as [|y rest IH]; intros x.
  - cbn. split; [left | repeat constructor; lra].
  - cbn [fold_left].
    destruct (Py.Qlt_bool y x) eqn:E.
    + apply Qlt_bool_iff in E. destruct (IH y) as (Hin & Hall).
      split; [right; exact Hin|].
      inversion Hall as [|? ? Hy Hrest]; subst.
      constructor; [lra|]. constructor; assumption.
    + apply Qlt_bool_false in E. destruct (IH x) as (Hin & Hall).
      inversion Hall as [|? ? Hx Hrest]; subst.
      split.
      * apply elem_of_cons in Hin as [->|Hin]; [left | right; right; exact Hin].
      * constructor; [exact Hx|]. constructor; [lra | exact Hrest].
Qed.

Lemma sum_within (lo hi : Q) (l : list Q) :
  Forall (fun s => lo <= s <= hi) l ->
  Py.len l * lo <= Py.sum l <= Py.len l * hi.
Proof.
  unfold Py.len. induction 1 as [|x l Hx _ IH]; cbn [length].
  - rewrite sum_nil, inject_nat_0. lra.
  - rewrite sum_cons, inject_nat_S. lra.
Qed.

(** The stake a joining peer gets lies in any interval that holds the
    current stakes (and [0], if there are none). *)
Lemma new_stake_within (lo hi : Q) (stakes : list Q)
    (join_amount : NewEntry) (g : rng) :
  Forall (fun s => lo <= s <= hi) stakes ->
  (stakes = [] -> lo <= 0 <= hi) ->
  exists v g', new_stake stakes join_amount g = (Normal v, g')
               /\ lo <= v <= hi.
Proof.
  intros Hall Hempty. unfold new_stake.
  destruct stakes as [|x rest].
  { destruct join_amount; eexists _, _; (split; [reflexivity | auto]). }
  rewrite Forall_forall in Hall.
  destruct join_amount.
  - eexists _, _. split; [reflexivity|].
    apply Hall. apply max_is_greatest.
  - eexists _, _. split; [reflexivity|].
    apply Hall. apply min_is_least.
  - cbn [randint_below].
    destruct (lookup_lt_is_Some_2 (x :: rest)
                (random_bits g mod length (x :: rest))%nat) as [s Hs].
    { apply Nat.mod_upper_bound. cbn. lia. }
    rewrite Hs. eexists _, _. split; [reflexivity|].
    apply Hall. eapply list_elem_of_lookup_2. exact Hs.
  - eexists _, _. split; [reflexivity|].
    pose proof (sum_within lo hi (x :: rest)
                  ltac:(rewrite Forall_forall; exact Hall)) as Hsum.
    pose proof (len_positive (x :: rest) ltac:(discriminate)) as Hn.
    split.
    + apply Qle_shift_div_l; lra.
    + apply Qle_shift_div_r; lra.
Qed.

Lemma try_to_join_within (lo hi : Q) (depth : nat) :
  forall stakes corrupted p join_amount pc g,
  Forall (fun s => lo <= s <= hi) stakes ->
  (stakes = [] -> lo <= 0 <= hi) ->
  Forall (fun s => lo <= s <= hi)
         (try_to_join depth stakes corrupted p join_amount pc g).1.2.1.
Proof.
  induction depth as [|depth IH];
    intros stakes corrupted p join_amount pc g Hall Hempty; cbn;
    [exact Hall|].
  destruct (Qle_bool (random_random g) p); [|exact Hall].
  destruct (new_stake_within lo hi stakes join_amount (S g) Hall Hempty)
    as (v & g' & -> & Hv).
  apply IH.
  - apply Forall_app. split; [exact Hall | repeat constructor; apply Hv].
  - intros Hnil. apply app_eq_nil in Hnil as (_ & Hnil). discriminate.
Qed.

Lemma entry_below_sum (l : list Q) :
  Forall (Qle 0) l -> Forall (fun s => 0 <= s <= Py.sum l) l.
Proof.
  induction 1 as [|x l Hx Hl IH]; [constructor|].
  pose proof (sum_nonneg l Hl) as Hs.
  constructor; [rewrite sum_cons; lra|].
  eapply Forall_impl; [exact IH|]. cbn. intros s Hsb.
  rewrite sum_cons. lra.
Qed.

Lemma try_to_join_nonneg (depth : nat) stakes corrupted p join_amount pc g :
  Forall (Qle 0) stakes ->
  Forall (Qle 0) (try_to_join depth stakes corrupted p join_amount pc g).1.2.1.
Proof.
  intros Hpos.
  pose proof (try_to_join_within 0 (Py.sum stakes) depth stakes corrupted p
                join_amount pc g (entry_below_sum stakes Hpos)) as H.
  eapply Forall_impl; [apply H|].
  - intros ->. rewrite sum_nil. lra.
  - cbn. intros s Hs. lra.
Qed.

Lemma try_to_leave_nonneg stakes p g :
  Forall (Qle 0) stakes -> Forall (Qle 0) (try_to_leave stakes p g).1.
Proof.
  intros Hpos. unfold try_to_leave. destruct stakes as [|x rest]; [exact Hpos|].
  cbn [random randint_below]. destruct (Qle_bool _ _); cbn [fst];
    [|exact Hpos].
  apply Forall_delete. exact Hpos.
Qed.

Lemma settle_nonneg params stakes corrupted validator g stakes' g' :
  penalty_percentage params <= 1 -> 0 <= reward params ->
  Forall (Qle 0) stakes ->
  settle params stakes corrupted validator g = (Normal stakes', g') ->
  Forall (Qle 0) stakes'.
Proof.
  intros Hpen Hrew Hpos. unfold settle.
  destruct (bool_decide _); [cbn [random]|];
    (destruct (stakes !! validator) as [stake|] eqn:Hs; [|discriminate]);
    assert (Hstake : 0 <= stake)
      by (rewrite Forall_forall in Hpos; apply Hpos;
          eapply list_elem_of_lookup_2; exact Hs);
    repeat match goal with |- context [if ?b then _ else _] => destruct b end;
    intros [= <- _]; apply Forall_insert; try exact Hpos; nra.
Qed.

(** The amounts scheduled for an epoch come from the table. *)
Lemma scheduled_amounts_from_table (table : list (Z * Q)) (P : Q -> Prop) :
  Forall (fun entry => P entry.2) table ->
  forall (acc : gmap Z (list Q)) epoch amounts,
  (forall e l, acc !! e = Some l -> Forall P l) ->
  fold_left
    (fun (dict : gmap Z (list Q)) '(epoch, stake_amount) =>
       <[epoch := default [] (dict !! epoch) ++ [stake_amount]]> dict)
    table acc !! epoch = Some amounts ->
  Forall P amounts.
Proof.
  induction 1 as [|[e a] table Ha _ IH]; intros acc epoch amounts Hacc; cbn.
  - apply Hacc.
  - apply IH. intros e' l. destruct (decide (e = e')) as [->|Hne].
    + rewrite lookup_insert_eq. intros [= <-].
      apply Forall_app. split; [|repeat constructor; exact Ha].
      destruct (acc !! e') as [l|] eqn:El; cbn; [eapply Hacc; eauto|constructor].
    + rewrite lookup_insert_ne by exact Hne. apply Hacc.
Qed.

Lemma scheduled_nonneg params epoch :
  match scheduled_joins params with
  | Some table => Forall (fun entry => 0 <= entry.2) table
  | None => True
  end ->
  Forall (Qle 0) (default [] (scheduled_joins_dict params !! epoch)).
Proof.
  unfold scheduled_joins_dict. destruct (scheduled_joins params) as [table|].
  - intros Htable.
    destruct (fold_left _ table ∅ !! epoch) as [amounts|] eqn:E;
      [|constructor].
    cbn. eapply (scheduled_amounts_from_table table (Qle 0)); [exact Htable| |exact E].
    intros e l. rewrite lookup_empty. discriminate.
  - intros _. rewrite lookup_empty. constructor.
Qed.

Lemma epoch_nonneg params pc i s :
  penalty_percentage params <= 1 -> 0 <= reward params ->
  match scheduled_joins params with
  | Some table => Forall (fun entry => 0 <= entry.2) table
  | None => True
  end ->
  Forall (Qle 0) (stakes s) ->
  Forall (Qle 0)
    (stakes (epoch params (scheduled_joins_dict params) pc i s).2).
Proof.
  intros Hpen Hrew Htable Hpos.
  pose proof (try_to_join_nonneg recursion_limit
                (stakes s ++ default [] (scheduled_joins_dict params
                                           !! Z.of_nat i))
                (corrupted s) (p_join params) (join_amount params) pc (gen s)
                ltac:(apply Forall_app; split;
                      [exact Hpos | now apply scheduled_nonneg])) as Hjoin.
  unfold epoch. break_join; cbn in Hjoin; [exact Hjoin|].
  pose proof (try_to_leave_nonneg stakes1 (p_leave params) g1 Hjoin) as Hleave.
  break_leave. cbn in Hleave.
  break_selection; cbn; try exact Hleave;
    eapply settle_nonneg; eauto.
Qed.

(** X22. With non-negative initial stakes and scheduled amounts, a
    penalty fraction of at most [1] and a non-negative reward, no stake
    is negative after any number of epochs of a run, however the run
    ends. *)
Theorem stakes_stay_non_negative
    (stakes : list Q) (corrupted : list nat) (params : Parameters) (g : rng)
    (n : nat) :
  Forall (Qle 0) stakes ->
  penalty_percentage params <= 1 -> 0 <= reward params ->
  match scheduled_joins params with
  | Some table => Forall (fun entry => 0 <= entry.2) table
  | None => True
  end ->
  Forall (Qle 0)
    (Simulator.stakes (run_epochs stakes corrupted params g (seq 0 n)).2).
Proof.
  intros Hpos Hpen Hrew Htable. unfold run_epochs.
  assert (Hinit : Forall (Qle 0)
            (Simulator.stakes (initial_run stakes corrupted params g)))
    by exact Hpos.
  revert Hinit. generalize (initial_run stakes corrupted params g).
  generalize (percentage_corrupted stakes corrupted).
  generalize (seq 0 n). intros l pc. induction l as [|i l IH]; intros s Hs.
  - exact Hs.
  - cbn [epochs].
    pose proof (epoch_nonneg params pc i s Hpen Hrew Htable Hs) as Hstep.
    destruct (epoch params (scheduled_joins_dict params) pc i s)
      as [[e|] s1]; [exact Hstep|].
    apply IH. exact Hstep.
Qed.

End StakeRangeFacts.

(** ** Peer counts along a run *)

Section CountFacts.

Context `{RT : Runtime}.

Local Open Scope Q_scope.

Import Metrics Consensus Churn Simulator RunConditions.

Lemma drops_snoc (start : nat) (counts : list nat) (count : nat) :
  Expected.drops_one_at_a_time start counts ->
  (default start (last counts) <= count + 1)%nat ->
  Expected.drops_one_at_a_time start (counts ++ [count]).
Proof.
  revert start. induction counts as [|c counts IH]; intros start; cbn.
  - auto.
  - intros (Hc & Hrest) Hlast. split; [exact Hc|]. apply IH; [exact Hrest|].
    destruct counts as [|c' counts]; [exact Hlast|].
    rewrite last_cons_cons in Hlast.
    destruct (last (c' :: counts)) eqn:El; [exact Hlast|].
    apply last_None in El. discriminate.
Qed.

Lemma epochs_drop_one_at_a_time params scheduled pc l (start : nat) :
  forall s s', epochs params scheduled pc l s = (None, s') ->
  Expected.drops_one_at_a_time start (n_peers_history (hist s)) ->
  default start (last (n_peers_history (hist s))) = length (stakes s) ->
  Expected.drops_one_at_a_time start (n_peers_history (hist s')).
Proof.
  induction l as [|i l IH]; intros s s'; cbn.
  - intros [= <-]. auto.
  - destruct (epoch params scheduled pc i s) as [[e|] s1] eqn:E;
      [discriminate|].
    intros Hrest Hchain Hlast.
    apply epoch_length in E as Hlen.
    apply epoch_histories in E as (_ & _ & _ & _ & En & _).
    apply (IH s1 s' Hrest); rewrite En.
    + apply drops_snoc; [exact Hchain | lia].
    + now rewrite last_snoc.
Qed.

(** X23. In the peer-count history [simulate] returns, the first entry
    is at least the initial count less one, and no entry is more than
    one below the entry before it: an epoch removes at most one peer. *)
Theorem peer_count_drops_one_at_a_time
    (stakes : list Q) (corrupted : list nat) (params : Parameters) (g : rng)
    (h : histories) :
  (simulate stakes corrupted params g).1 = Normal h ->
  Expected.drops_one_at_a_time (length stakes) (n_peers_history h).
Proof.
  intros Hret. apply simulate_normal in Hret as (s & Hrun & <-).
  unfold run_epochs in Hrun.
  eapply epochs_drop_one_at_a_time; [exact Hrun | exact I | reflexivity].
Qed.

End CountFacts.

(** ** The table of scheduled joins and the unused smoothing rule *)

Section TableFacts.

Import Simulator.

Lemma table_lookup (table : list (Z * Q)) (epoch : Z) :
  forall dict : gmap Z (list Q),
  default [] (fold_left
                (fun (dict : gmap Z (list Q)) '(epoch, stake_amount) =>
                   <[epoch := default [] (dict !! epoch) ++ [stake_amount]]>
                     dict)
                table dict !! epoch)
  = default [] (dict !! epoch) ++ Expected.amounts_for epoch table.
Proof.
  induction table as [|[e a] table IH]; intros dict; cbn.
  - now rewrite app_nil_r.
  - rewrite IH. unfold Expected.amounts_for. cbn [omap list_omap fst snd].
    destruct (decide (e = epoch)) as [->|Hne].
    + rewrite lookup_insert_eq. cbn [default from_option id].
      now rewrite <- app_assoc.
    + now rewrite lookup_insert_ne by exact Hne.
Qed.

(** X26. The dictionary [simulate] builds from [scheduled_joins] holds,
    for every epoch, exactly the amounts the table lists for that epoch,
    in the table's order; entries with the same epoch are all kept. *)
Theorem scheduled_joins_are_grouped_by_epoch
    (params : Parameters) (table : list (Z * Q)) (epoch : Z) :
  scheduled_joins params = Some table ->
  default [] (scheduled_joins_dict params !! epoch)
  = Expected.amounts_for epoch table.
Proof.
  intros Htable. unfold scheduled_joins_dict. rewrite Htable.
  rewrite table_lookup. now rewrite lookup_empty.
Qed.

End TableFacts.

Section SmoothingFacts.

Local Open Scope Q_scope.

Import Generators Smoothing.

Lemma Qeq_bool_false (x : Q) : Qeq_bool x 0 = false <-> ~ x == 0.
Proof.
  split.
  - intros E Hx. apply Qeq_bool_iff in Hx. congruence.
  - intros Hx. destruct (Qeq_bool x 0) eqn:E; [|reflexivity].
    apply Qeq_bool_iff in E. contradiction.
Qed.

(** X28. With [r = 0] and a target other than [0],
    [compute_smooth_parameter2] divides by zero: [1 - target / (target +
    r)] is [0]. *)
Theorem smooth_parameter2_divides_by_zero (current_gini target_gini r : Q) :
  r == 0 -> ~ target_gini == 0 ->
  compute_smooth_parameter2 current_gini target_gini r = ZeroDivisionError.
Proof.
  intros Hr Ht. unfold compute_smooth_parameter2, divide. cbv zeta.
  assert (Hd : Qeq_bool (target_gini + r) 0 = false).
  { apply Qeq_bool_false. intros H. apply Ht. lra. }
  rewrite Hd.
  assert (Hz : Qeq_bool (1 - target_gini / (target_gini + r)) 0 = true).
  { apply Qeq_bool_iff.
    assert (E : target_gini / (target_gini + r) == 1).
    { rewrite Hr. field. exact Ht. }
    rewrite E. lra. }
  now rewrite Hz.
Qed.

End SmoothingFacts.

(** ** Positions, counts, signs and copies *)

Section PositionFacts.

Context `{RT : Runtime}.

Local Open Scope Q_scope.

Import Metrics Consensus Churn Simulator RunConditions.

Lemma consensus_draws_once (pos : PoS) (stakes : list Q) (t : Q) (g : rng)
    (v : nat) (g' : rng) :
  consensus pos stakes t g = (Normal v, g') -> g' = S g.
Proof.
  destruct pos; cbn [consensus];
    unfold weighted_consensus, opposite_weighted_consensus,
      gini_stabilized_consensus, log_weighted_consensus, desw_consensus,
      srsw_weighted_consensus, random_consensus, randint_below, random;
    repeat match goal with
           | |- context [match ?l with [] => _ | _ :: _ => _ end] =>
             destruct l
           | |- context [if Qeq_bool ?x ?y then _ else _] =>
             destruct (Qeq_bool x y)
           | |- context [match lerp_vector ?a ?b ?c with _ => _ end] =>
             destruct (lerp_vector a b c)
           end;
    cbv beta iota zeta; intros [= _ <-] || discriminate; reflexivity.
Qed.

(** X10. On a non-empty stake vector [consensus] returns, for each of the
    seven algorithms (for [GINI_STABILIZED] when [t] is not [-1]), a
    position below the number of peers, after exactly one draw from the
    generator; it does not raise. *)
Theorem consensus_returns_a_position
    (pos : PoS) (stakes : list Q) (t : Q) (g : rng) :
  stakes <> [] ->
  (pos = GINI_STABILIZED -> ~ t == -1) ->
  exists position,
    consensus pos stakes t g = (Normal position, S g)
    /\ (position < length stakes)%nat.
Proof.
  intros Hne Ht.
  destruct (consensus_valid pos stakes t g Hne) as (v & g' & Hv & Hlt).
  - intros Hpos. destruct (Qeq_bool t (-1)) eqn:E; [|reflexivity].
    apply Qeq_bool_iff in E. destruct (Ht Hpos E).
  - exists v. rewrite Hv. rewrite (consensus_draws_once _ _ _ _ _ _ Hv).
    split; [reflexivity | exact Hlt].
Qed.

End PositionFacts.

Section GeneratorSigns.

Context `{RT : Runtime}.

Local Open Scope Q_scope.

Import Metrics Generators.

Lemma Forall_Qeq_nonneg (l1 l2 : list Q) :
  Forall2 Qeq l1 l2 -> Forall (Qle 0) l2 -> Forall (Qle 0) l1.
Proof.
  induction 1 as [|x y l1 l2 Hxy _ IH]; intros Hall; [constructor|].
  inversion Hall; subst. constructor; [lra | auto].
Qed.

(** X17. For [n_peers >= 2], a volume of at least [0] and a requested
    coefficient in [[0, 1]], [generate_vector_with_gini] returns
    [n_peers] stakes, none of them negative. *)
Theorem gini_distribution_is_non_negative
    (n_peers : Z) (initial_volume gini_coeff : Q) :
  (2 <= n_peers)%Z -> 0 <= initial_volume -> 0 <= gini_coeff <= 1 ->
  exists stakes,
    generate_vector_with_gini n_peers initial_volume gini_coeff
    = Computed stakes
    /\ length stakes = Z.to_nat n_peers
    /\ Forall (Qle 0) stakes.
Proof.
  intros Hn Hv (Hg0 & Hg1).
  destruct (gini_vector n_peers initial_volume gini_coeff Hn)
    as (stakes & Hgen & Hlen & Hshape & _).
  exists stakes. split; [exact Hgen|]. split; [exact Hlen|].
  apply (Forall_Qeq_nonneg _ _ Hshape).
  destruct (two_level_vector n_peers initial_volume gini_coeff Hn Hg0 Hv)
    as (Hle & _).
  assert (Hsmall : 0 <= Expected.small_share n_peers initial_volume gini_coeff).
  { unfold Expected.small_share.
    pose proof (of_int_at_least_two n_peers Hn) as HN.
    assert (H0 : 0 <= (1 - gini_coeff) * initial_volume) by nra.
    unfold Qdiv. apply Qmult_le_0_compat; [exact H0|].
    apply Qinv_le_0_compat. lra. }
  apply Forall_app. split.
  - apply Forall_replicate. exact Hsmall.
  - repeat constructor. lra.
Qed.

(** X19. For [n > 0] and a volume of at least [0],
    [generate_vector_random] returns [n] stakes, none of them negative,
    after exactly [n - 1] random draws. *)
Theorem random_distribution_is_non_negative
    (n : Z) (volume : Q) (g : rng) :
  (0 < n)%Z -> 0 <= volume ->
  exists stakes,
    generate_vector_random n volume g
    = (Computed stakes, (g + (Z.to_nat n - 1))%nat)
    /\ length stakes = Z.to_nat n
    /\ Forall (Qle 0) stakes.
Proof.
  intros Hn Hv.
  destruct (random_vector n volume g Hn) as (stakes & Hgen & Hlen & _ & Hpos).
  exists stakes. auto.
Qed.

(** X20. For [n_peers >= 2], [generate_peers] returns, for each of the
    three distributions and whatever [initial_gini] is, exactly [n_peers]
    stakes; it does not raise. *)
Theorem generate_peers_returns_n_peers
    (n_peers : Z) (initial_volume : Q) (distribution_type : Distribution)
    (initial_gini : Q) (g : rng) :
  (2 <= n_peers)%Z ->
  exists stakes g',
    generate_peers n_peers initial_volume distribution_type initial_gini g
    = (Computed stakes, g')
    /\ length stakes = Z.to_nat n_peers.
Proof.
  intros Hn. unfold generate_peers. destruct distribution_type.
  - destruct (uniform_vector n_peers initial_volume ltac:(lia)) as (Hl & _).
    eauto.
  - match goal with
    | |- context [generate_vector_with_gini _ _ ?target] =>
      destruct (gini_vector n_peers initial_volume target Hn)
        as (stakes & -> & Hl & _)
    end.
    eauto.
  - destruct (random_vector n_peers initial_volume g ltac:(lia))
      as (stakes & -> & Hl & _).
    eauto.
Qed.

End GeneratorSigns.

Section JoinCopies.

Context `{RT : Runtime}.

Local Open Scope Q_scope.

Import Metrics Consensus Churn Simulator RunConditions.

Lemma new_stake_is_a_copy (stakes : list Q) (join_amount : NewEntry)
    (g : rng) (v : Q) (g' : rng) :
  join_amount <> NEW_AVERAGE -> stakes <> [] ->
  new_stake stakes join_amount g = (Normal v, g') -> v ∈ stakes.
Proof.
  intros Hja Hne. unfold new_stake.
  destruct join_amount, stakes as [|x rest]; try congruence.
  - intros [= <- _]. apply max_is_greatest.
  - intros [= <- _]. apply min_is_least.
  - cbn [randint_below].
    destruct ((x :: rest) !! _) as [s|] eqn:Hs; [|discriminate].
    intros [= <- _]. eapply list_elem_of_lookup_2. exact Hs.
Qed.

(** X21. Under [NEW_MAX], [NEW_MIN] and [NEW_RANDOM], [try_to_join] on a
    non-empty stake vector only adds copies of stakes that are already
    there: every stake after the call is a stake from before the call,
    however many peers join and however the call ends. *)
Theorem joins_copy_existing_stakes
    (depth : nat) (stakes : list Q) (corrupted : list nat)
    (p : Q) (join_amount : NewEntry) (pc : Q) (g : rng) :
  join_amount <> NEW_AVERAGE -> stakes <> [] ->
  Forall (fun stake => stake ∈ stakes)
         (try_to_join depth stakes corrupted p join_amount pc g).1.2.1.
Proof.
  intros Hja. revert stakes corrupted g.
  induction depth as [|depth IH]; intros stakes corrupted g Hne;
    cbn [try_to_join random].
  - cbn. apply Forall_forall. auto.
  - destruct (Qle_bool (random_random g) p);
      [|cbn; apply Forall_forall; auto].
    destruct (new_stake stakes join_amount (S g)) as [[v|e] g1] eqn:E;
      [|cbn; apply Forall_forall; auto].
    apply new_stake_is_a_copy in E; [|exact Hja | exact Hne].
    eapply Forall_impl; [apply IH; intros H; destruct stakes; discriminate|].
    cbn. intros s Hs. apply elem_of_app in Hs as [Hs|Hs]; [exact Hs|].
    apply list_elem_of_singleton in Hs. now subst.
Qed.

End JoinCopies.

Section QuietStakes.

Context `{RT : Runtime}.

Local Open Scope Q_scope.

Import Metrics Consensus Churn Simulator RunConditions.

Lemma Forall2_Qle_refl (l : list Q) : Forall2 Qle l l.
Proof. induction l; constructor; [lra | assumption]. Qed.

Lemma Forall2_Qle_trans (l1 l2 l3 : list Q) :
  Forall2 Qle l1 l2 -> Forall2 Qle l2 l3 -> Forall2 Qle l1 l3.
Proof.
  intros H. revert l3. induction H as [|x y l1 l2 Hxy _ IH]; intros l3 H23;
    inversion H23; subst; constructor; [lra | auto].
Qed.

Lemma insert_raises (l : list Q) (i : nat) (x y : Q) :
  l !! i = Some x -> x <= y -> Forall2 Qle l (<[i := y]> l).
Proof.
  revert i. induction l as [|z l IH]; intros [|i]; cbn; try discriminate.
  - intros [= ->] Hxy. constructor; [exact Hxy | apply Forall2_Qle_refl].
  - intros Hi Hxy. constructor; [lra | eauto].
Qed.

Lemma settle_raises params stakes validator g stakes' g' :
  0 <= reward params ->
  settle params stakes [] validator g = (Normal stakes', g') ->
  Forall2 Qle stakes stakes'.
Proof.
  intros Hr. unfold settle.
  rewrite bool_decide_eq_false_2 by apply not_elem_of_nil.
  destruct (stakes !! validator) as [stake|] eqn:Hs; [|discriminate].
  intros [= <- _]. eapply insert_raises; [exact Hs | lra].
Qed.

Section Quiet.

Hypothesis positive_draws : forall i, 0 < random_random i.

Variable params : Parameters.

Hypothesis quiet : no_churn params.

Hypothesis rewarding : 0 <= reward params.

Local Abbreviation no_table := (∅ : gmap Z (list Q)).

(** Without churn and without corrupted peers an epoch that ends normally
    lowers no stake. *)
Lemma epoch_raises pc i s s' :
  corrupted s = [] ->
  epoch params no_table pc i s = (None, s') ->
  corrupted s' = [] /\ Forall2 Qle (stakes s) (stakes s').
Proof.
  intros Hc. unfold epoch. rewrite lookup_empty. cbn [default].
  rewrite app_nil_r, Hc.
  destruct recursion_limit as [|depth]; [cbn; discriminate|].
  rewrite try_to_join_idle;
    [|destruct quiet as (Hj & _); pose proof (positive_draws (gen s)); lra].
  pose proof (leave_is_idle positive_draws params quiet (stakes s) (S (gen s)))
    as Hleave.
  break_leave. cbn in Hleave. subst stakes2.
  break_selection; try discriminate; intros [= <-]; cbn;
    (split; [reflexivity | eapply settle_raises; eassumption]).
Qed.

Lemma epochs_raise pc l :
  forall s s', corrupted s = [] ->
  epochs params no_table pc l s = (None, s') ->
  Forall2 Qle (stakes s) (stakes s').
Proof.
  induction l as [|i l IH]; intros s s' Hc; cbn [epochs].
  - intros [= <-]. apply Forall2_Qle_refl.
  - destruct (epoch params no_table pc i s) as [[e|] s1] eqn:E;
      [discriminate|].
    intros Hrest. apply epoch_raises in E as (Hc1 & Hle); [|exact Hc].
    eapply Forall2_Qle_trans; [exact Hle | exact (IH s1 s' Hc1 Hrest)].
Qed.

End Quiet.

(** X24. Without churn ([p_join = 0], [p_leave = 0], no scheduled joins,
    draws above [0]), without corrupted peers and with a reward of at
    least [0], a run that returns has lowered no stake: the final vector
    has the peers of the initial one, each with at least its initial
    stake. *)
Theorem quiet_run_lowers_no_stake
    (stakes : list Q) (params : Parameters) (g : rng)
    (h : histories) (final : run) :
  no_churn params -> (forall i, 0 < random_random i) ->
  0 <= reward params ->
  simulate stakes [] params g = (Normal h, final) ->
  Forall2 Qle stakes (Simulator.stakes final).
Proof.
  intros Hquiet Hdraws Hreward. unfold simulate, run_epochs.
  rewrite (no_scheduled_joins params Hquiet).
  destruct (epochs _ _ _ _ _) as [[e|] s] eqn:E; [discriminate|].
  intros [= _ <-].
  apply (epochs_raise Hdraws params Hquiet Hreward) in E; [exact E|].
  reflexivity.
Qed.

End QuietStakes.

Section BenchmarkCopy.

(** X27. The copy of the parameters [run_single_experiment] builds is
    accepted whenever the original was; it runs the requested algorithm
    and keeps the eleven other fields it is given, but [initial_gini],
    [θ], [s_type], [k] and [scheduled_joins] of the original are replaced
    by the defaults of the dataclass. *)
Theorem benchmark_copy_keeps_listed_fields
    (pos_algorithm : PoS) (params : Parameters) :
  validated params ->
  exists copy,
    Benchmark.test_params pos_algorithm params = Normal copy
    /\ proof_of_stake copy = pos_algorithm
    /\ (n_epochs copy, initial_stake_volume copy, initial_distribution copy,
        n_peers copy, n_corrupted copy)
       = (n_epochs params, initial_stake_volume params,
          initial_distribution params, n_peers params, n_corrupted params)
    /\ (p_fail copy, p_join copy, p_leave copy, join_amount copy,
        penalty_percentage copy, reward copy)
       = (p_fail params, p_join params, p_leave params, join_amount params,
          penalty_percentage params, reward params)
    /\ (initial_gini copy, θ copy, s_type copy, k copy, scheduled_joins copy)
       = (3 # 10, 3 # 10, LINEAR, 1 # 1000, None).
Proof.
  unfold validated, post_init, Benchmark.test_params. intros Hv.
  eexists. cbv beta zeta. unfold post_init.
  cbn [n_epochs initial_gini n_peers n_corrupted p_fail p_join p_leave
       penalty_percentage θ k reward proof_of_stake s_type scheduled_joins
       initial_stake_volume initial_distribution join_amount].
  destruct (n_epochs params <=? 0)%Z; [discriminate|].
  destruct (outside_unit (initial_gini params)); [discriminate|].
  destruct (n_peers params <=? 0)%Z; [discriminate|].
  destruct (n_corrupted params <? 0)%Z; [discriminate|].
  destruct (outside_unit (p_fail params)); [discriminate|].
  destruct (outside_unit (p_join params)); [discriminate|].
  destruct (outside_unit (p_leave params)); [discriminate|].
  destruct (outside_unit (penalty_percentage params)); [discriminate|].
  destruct (outside_unit (θ params)); [discriminate|].
  destruct (Qle_bool (k params) 0); [discriminate|].
  destruct (Qle_bool (reward params) 0); [discriminate|].
  change (outside_unit (3 # 10)) with false.
  change (Qle_bool (1 # 1000) 0) with false.
  cbv iota. repeat split.
Qed.

End BenchmarkCopy.

Section SmoothingRange.

Local Open Scope Q_scope.

Import Generators Smoothing.

(** X29. Whenever [compute_smooth_parameter2] returns, its result lies
    between [0] and [1]; at the target ([current_gini = target_gini]) the
    result is [1/2]. *)
Theorem smooth_parameter2_stays_in_unit_interval
    (current_gini target_gini r v : Q) :
  compute_smooth_parameter2 current_gini target_gini r = Computed v ->
  0 <= v <= 1 /\ (current_gini == target_gini -> v == 1 # 2).
Proof.
  unfold compute_smooth_parameter2, divide. cbv zeta.
  destruct (Qeq_bool (target_gini + r) 0).
  { intros [= <-]. split; [lra | reflexivity]. }
  destruct (Qeq_bool (1 - target_gini / (target_gini + r)) 0);
    [discriminate|].
  remember ((1 # 2)
            - (current_gini / (target_gini + r)
               - target_gini / (target_gini + r))
              * (1 / (1 - target_gini / (target_gini + r)))) as res eqn:Hres.
  intros [= <-].
  assert (Hline : current_gini == target_gini -> res == 1 # 2).
  { intros Heq. rewrite Hres, Heq.
    remember (target_gini / (target_gini + r)) as q.
    remember (1 / (1 - q)) as f. ring. }
  destruct (Py.Qlt_bool 1 res) eqn:E1.
  - apply Qlt_bool_iff in E1.
    change (Py.Qlt_bool 1 0) with false. cbv iota.
    split; [lra|]. intros Heq. specialize (Hline Heq). lra.
  - apply Qlt_bool_false in E1.
    destruct (Py.Qlt_bool res 0) eqn:E2.
    + apply Qlt_bool_iff in E2. split; [lra|].
      intros Heq. specialize (Hline Heq). lra.
    + apply Qlt_bool_false in E2. split; [lra | exact Hline].
Qed.

End SmoothingRange.

Section ChainGiniEdges.

Local Open Scope Q_scope.

Import Metrics ChainAnalysis.

(** X30. On an empty column [calculate_gini_coefficient] of the chain
    analysis raises [IndexError]; on a column with a single non-zero
    entry it returns [1], where [gini] of the simulator returns [0] for
    the same data. *)
Theorem analysis_gini_of_one_entry (x : Q) :
  ~ x == 0 ->
  calculate_gini_coefficient [] = Raised IndexError
  /\ exists v, calculate_gini_coefficient [x] = Normal v
               /\ v == 1 /\ gini [x] == 0.
Proof.
  intros Hx. split; [reflexivity|].
  unfold calculate_gini_coefficient, Py.cumsum, trapz, gini.
  cbn [Py.sorted fold_right Py.insert_asc Py.cumsum_from last map tail
       zip_with].
  eexists. split; [reflexivity|].
  assert (Hsum : Py.sum [x] == x) by (rewrite sum_cons, sum_nil; lra).
  rewrite (Qeq_bool_congr _ _ Hsum).
  destruct (Qeq_bool x 0) eqn:E.
  { apply Qeq_bool_iff in E. contradiction. }
  split.
  - rewrite sum_nil. lra.
  - unfold Py.len, Py.cumsum. cbn [length Py.cumsum_from map zip_with].
    rewrite (sum_cons (_ - _)), sum_nil.
    change (inject_Z (Z.of_nat 1)) with 1.
    rewrite Hsum. field. exact Hx.
Qed.

End ChainGiniEdges.

(** * The code on concrete inputs *)

Section Examples.

Local Open Scope Q_scope.

Import Metrics Consensus Churn Simulator RunConditions.

(** The figures of the specification for [[100, 200, 300, 400, 500]]. *)
Example gini_of_five : gini Demo.five == 4 # 15.
Proof. vm_compute. reflexivity. Qed.

Example nakamoto_of_five :
  nakamoto_coefficient Demo.five default_threshold = 2%nat.
Proof. vm_compute. reflexivity. Qed.

Example hhi_of_five :
  HHI_coefficient Demo.five == 550000 # 2250000.
Proof. vm_compute. reflexivity. Qed.

(** The two ends of the clamp of C9: Gini [0] gives [0.8], Gini [1]
    gives [0.2]. *)
Example p_dynamic_at_the_ends :
  p_dynamic_of 0 == 8 # 10 /\ p_dynamic_of 1 == 2 # 10.
Proof. split; vm_compute; reflexivity. Qed.

(** With [p_join = 0] a join draw of exactly [0.0] still adds a peer,
    because the test is [random.random() <= p]. *)
Example zero_draw_joins :
  match (@simulate (Demo.runtime [0] (1 # 2) 0 1000) [1] []
           (Demo.parameters 1 WEIGHTED 0 0 LINEAR (1 # 1000)) 0%nat).1 with
  | Normal h => n_peers_history h = [2%nat]
  | Raised _ => False
  end.
Proof. vm_compute. reflexivity. Qed.

(** With [p_join = 1] the retries of [try_to_join] never stop. *)
Example certain_join_overflows :
  (@simulate (Demo.runtime [] (1 # 2) 0 5) [1] []
     (Demo.parameters 1 WEIGHTED 1 0 LINEAR (1 # 1000)) 0%nat).1
  = Raised RecursionError.
Proof. vm_compute. reflexivity. Qed.

(** C10, witness. *)
Lemma nakamoto_coefficient_monotone_witness :
  (nakamoto_coefficient Demo.five (33 # 100)
   <= nakamoto_coefficient Demo.five (51 # 100))%nat.
Proof.
  apply nakamoto_coefficient_monotone.
  - repeat constructor; unfold Qle; simpl; lia.
  - unfold Qle; simpl; lia.
Defined.

(** C4, counterexample: [HHI_coefficient] keeps a negative entry that the
    specification's HHI drops. *)
Lemma hhi_coefficient_keeps_negative_entries :
  HHI_coefficient [-1; 3] == 5 # 2
  /\ Spec.HHI [Some (-1); Some 3] false == 1
  /\ ~ HHI_coefficient [-1; 3] == Spec.HHI (Some <$> [-1; 3]) false.
Proof.
  split; [|split]; vm_compute; [reflexivity | reflexivity | discriminate].
Qed.

(** C4, witness. *)
Lemma hhi_functions_against_spec_witness :
  Forall (Qle 0) [100; 0; 300]
  /\ HHI_coefficient [100; 0; 300] == Spec.HHI (Some <$> [100; 0; 300]) false.
Proof.
  assert (Hpos : Forall (Qle 0) [100; 0; 300])
    by (repeat constructor; unfold Qle; simpl; lia).
  split; [exact Hpos | exact (proj2 hhi_functions_against_spec _ Hpos)].
Defined.

(** C5, counterexample: on [[0, 1]] with the draw [0.00005] the
    square-root selector passes the zero-weight first peer and returns
    position [1]; the log-weighted selector gives the first peer the
    weight [sqrt(1e-8)] and returns position [0]. *)
Lemma log_and_srsw_differ_below_epsilon :
  @srsw_weighted_consensus Demo.low_draws [0; 1] 0%nat = (Normal 1%nat, 1%nat)
  /\ @log_weighted_consensus Demo.low_draws [0; 1] 0%nat
     = (Normal 0%nat, 1%nat)
  /\ @log_weighted_consensus Demo.low_draws [0; 1] 0%nat
     <> @srsw_weighted_consensus Demo.low_draws [0; 1] 0%nat.
Proof.
  split; [|split]; vm_compute; [reflexivity | reflexivity | discriminate].
Qed.

(** C5, witness. *)
Lemma log_weighted_is_srsw_above_epsilon_witness :
  @log_weighted_consensus Demo.steady [1; 4] 0%nat
  = @srsw_weighted_consensus Demo.steady [1; 4] 0%nat.
Proof.
  apply (@log_weighted_is_srsw_above_epsilon Demo.steady).
  repeat constructor; unfold Qle; simpl; lia.
Defined.

(** C6, counterexample: on the all-zero vector [[0, 0]], [consensus]
    called for [GINI_STABILIZED] with its default [t = -1] raises. *)
Lemma gini_stabilized_default_t_raises :
  [0; 0] <> ([] : list Q)
  /\ Forall (Qle 0) [0; 0]
  /\ @Spec.zero_total_weight Demo.steady GINI_STABILIZED [0; 0]
  /\ @consensus Demo.steady GINI_STABILIZED [0; 0] default_t 0%nat
     = (Raised ValueError, 0%nat).
Proof.
  split; [discriminate|]. split; [repeat constructor; discriminate|].
  split; vm_compute; reflexivity.
Qed.

(** C6, witness. *)
Lemma zero_weight_falls_back_to_randint_witness :
  @consensus Demo.steady OPPOSITE_WEIGHTED [5; 5; 5] default_t 7%nat
  = (Normal 0%nat, 8%nat)
  /\ (0 < 3)%nat.
Proof.
  apply (@zero_weight_falls_back_to_randint Demo.steady OPPOSITE_WEIGHTED
           [5; 5; 5] default_t 7%nat).
  - discriminate.
  - vm_compute. reflexivity.
  - discriminate.
Defined.

(** C9, witness. *)
Lemma desw_exponent_is_clamped_witness :
  exists cumulative,
    @desw_consensus Demo.steady [1; 3] 0%nat
    = (Normal (select cumulative (1 # 2) [1; 3]), 1%nat).
Proof.
  eexists.
  apply (proj2 (@desw_exponent_is_clamped Demo.steady) [1; 3] 0%nat).
  - discriminate.
  - vm_compute. reflexivity.
Defined.

Lemma steady_joins_settle (p : Q) :
  p < 1 # 2 -> @joins_settle Demo.steady p.
Proof.
  intros Hp i. exists i. split; [lia|]. split; [simpl; lia|].
  intros j _. simpl. destruct (i + j)%nat; exact Hp.
Defined.

Lemma steady_draws_positive (i : nat) : 0 < @random_random Demo.steady i.
Proof. simpl. destruct i; reflexivity. Defined.

(** C1, counterexample: one peer, validated parameters with
    [p_leave = 1]; the peer leaves in the first epoch and the selector
    raises on the empty vector, so no history is returned. *)
Lemma simulate_raises_on_emptied_stakes :
  validated Demo.everyone_leaves
  /\ [1] <> ([] : list Q)
  /\ (@simulate Demo.steady [1] [] Demo.everyone_leaves 0%nat).1
     = Raised ValueError
  /\ ~ @returns_full_histories Demo.steady [1] [] Demo.everyone_leaves 0%nat.
Proof.
  split; [reflexivity|]. split; [discriminate|].
  assert (Hraise : (@simulate Demo.steady [1] [] Demo.everyone_leaves 0%nat).1
                   = Raised ValueError) by (vm_compute; reflexivity).
  split; [exact Hraise|].
  intros (h & Hh & _). rewrite Hraise in Hh. discriminate.
Qed.

(** C1, witness. *)
Lemma simulate_history_lengths_witness :
  @returns_full_histories Demo.steady [100; 200; 300] [0%nat]
    Demo.short_run 0%nat.
Proof.
  apply (proj2 (@simulate_history_lengths Demo.steady [100; 200; 300]
                  [0%nat] Demo.short_run 0%nat)).
  - simpl. lia.
  - apply steady_joins_settle. reflexivity.
  - left. discriminate.
Defined.

(** C7, counterexample: two equal peers, validated parameters without
    churn, the Gini-stabilised selector with the constant smoothing step
    [2.5]: [t] goes [1.5], [1.5], [-1], and the third epoch raises. *)
Lemma quiet_run_can_raise :
  validated Demo.long_step
  /\ no_churn Demo.long_step
  /\ (@simulate Demo.steady [1; 1] [] Demo.long_step 0%nat).1
     = Raised ValueError
  /\ ~ @returns_constant_peer_count Demo.steady [1; 1] [] Demo.long_step
        0%nat.
Proof.
  split; [reflexivity|].
  split; [repeat split; reflexivity|].
  assert (Hraise : (@simulate Demo.steady [1; 1] [] Demo.long_step 0%nat).1
                   = Raised ValueError) by (vm_compute; reflexivity).
  split; [exact Hraise|].
  intros (h & Hh & _). rewrite Hraise in Hh. discriminate.
Qed.

(** C7, witness. *)
Lemma quiet_run_keeps_peer_count_witness :
  @returns_constant_peer_count Demo.steady [1; 1] [] Demo.quiet 0%nat.
Proof.
  apply (@quiet_run_keeps_peer_count Demo.steady [1; 1] [] Demo.quiet 0%nat).
  - repeat split; reflexivity.
  - exact steady_draws_positive.
  - discriminate.
  - simpl. lia.
  - left. discriminate.
Defined.

(** C8, witness: one epoch in which a peer joins, is recorded as
    corrupted at position [3], and the peer at position [0] leaves; the
    corrupted list goes from [[0]] to [[0, 3]] and stays so although only
    three peers remain. *)
Lemma corrupted_only_grows_witness :
  Simulator.corrupted
    (@run_epochs Demo.joining [100; 200; 300] [0%nat] Demo.join_and_leave
       0%nat (seq 0 0)).2
  = [0%nat]
  /\ Simulator.corrupted
       (@run_epochs Demo.joining [100; 200; 300] [0%nat] Demo.join_and_leave
          0%nat (seq 0 1)).2
     = [0%nat; 3%nat]
  /\ length
       (Simulator.stakes
          (@run_epochs Demo.joining [100; 200; 300] [0%nat]
             Demo.join_and_leave 0%nat (seq 0 1)).2)
     = 3%nat
  /\ Simulator.corrupted
       (@run_epochs Demo.joining [100; 200; 300] [0%nat] Demo.join_and_leave
          0%nat (seq 0 0)).2
     `prefix_of`
     Simulator.corrupted
       (@run_epochs Demo.joining [100; 200; 300] [0%nat] Demo.join_and_leave
          0%nat (seq 0 1)).2
  /\ [0%nat] ++ [length [100; 200; 300]]
     `prefix_of`
     (@try_to_join Demo.joining 1000 [100; 200; 300] [0%nat] (1 # 1000)
        NEW_RANDOM (1 # 3) 0%nat).1.2.2.
Proof.
  split; [vm_compute; reflexivity|].
  split; [vm_compute; reflexivity|].
  split; [vm_compute; reflexivity|].
  split.
  - apply (proj1 (@corrupted_only_grows Demo.joining [100; 200; 300]
                    [0%nat] Demo.join_and_leave 0%nat) 0%nat 1%nat).
    lia.
  - apply (proj1 (proj2 (proj2 (proj2
              (@corrupted_only_grows Demo.joining [100; 200; 300] [0%nat]
                 Demo.join_and_leave 0%nat))))
             999%nat [100; 200; 300] [0%nat] (1 # 1000) NEW_RANDOM (1 # 3)
             0%nat).
    + vm_compute. discriminate.
    + vm_compute. discriminate.
Defined.



(** ** The further properties on concrete inputs *)

(** X6, witness. *)
Lemma decentralization_score_zero_total_witness :
  Scores.decentralization_score [0; 0] == Py.len [0; 0] / (Py.len [0; 0] - 1)
  /\ 1 < Scores.decentralization_score [0; 0].
Proof.
  apply (decentralization_score_zero_total [0; 0]).
  - reflexivity.
  - simpl. lia.
Defined.

(** X7, witness. *)
Lemma nakamoto_analysis_is_monotone_witness :
  let results := Scores.nakamoto_coefficient_analysis Demo.five in
  exists a b c d e f : nat,
    results !! "25%"%string = Some a /\ results !! "33%"%string = Some b
    /\ results !! "50%"%string = Some c /\ results !! "51%"%string = Some d
    /\ results !! "66%"%string = Some e /\ results !! "75%"%string = Some f
    /\ (a <= b <= c)%nat /\ (c <= d <= e)%nat /\ (e <= f)%nat
    /\ d = nakamoto_coefficient Demo.five default_threshold
    /\ size results = 6%nat.
Proof.
  apply (nakamoto_analysis_is_monotone Demo.five).
  - discriminate.
  - repeat constructor; unfold Qle; simpl; lia.
Defined.

(** X12, witness. *)
Lemma single_peer_is_selected_witness :
  exists g', @consensus Demo.steady WEIGHTED [5] default_t 0%nat
             = (Normal 0%nat, g').
Proof.
  apply (@single_peer_is_selected Demo.steady WEIGHTED 5 default_t 0%nat).
  discriminate.
Defined.

(** X13, witness. *)
Lemma gini_stabilized_at_one_is_weighted_witness :
  @gini_stabilized_consensus Demo.steady [1; 3] 1 0%nat
  = @weighted_consensus Demo.steady [1; 3] 0%nat.
Proof.
  apply (@gini_stabilized_at_one_is_weighted Demo.steady [1; 3] 1 0%nat).
  reflexivity.
Defined.

(** X14, witness. *)
Lemma gini_stabilized_at_zero_is_opposite_witness :
  @gini_stabilized_consensus Demo.steady [1; 3] 0 0%nat
  = @opposite_weighted_consensus Demo.steady [1; 3] 0%nat.
Proof.
  apply (@gini_stabilized_at_zero_is_opposite Demo.steady [1; 3] 0 0%nat).
  - reflexivity.
  - intros H. vm_compute in H. discriminate.
  - intros H. vm_compute in H. discriminate.
Defined.

(** X22, witness. *)
Lemma stakes_stay_non_negative_witness :
  Forall (Qle 0)
    (Simulator.stakes
       (@run_epochs Demo.steady [100; 200; 300] [0%nat] Demo.short_run 0%nat
          (seq 0 2)).2).
Proof.
  apply (@stakes_stay_non_negative Demo.steady [100; 200; 300] [0%nat]
           Demo.short_run 0%nat 2).
  - repeat constructor; unfold Qle; simpl; lia.
  - unfold Qle; simpl; lia.
  - unfold Qle; simpl; lia.
  - exact I.
Defined.

(** X23, witness. *)
Lemma peer_count_drops_one_at_a_time_witness :
  exists h,
    (@simulate Demo.steady [100; 200; 300] [0%nat] Demo.short_run 0%nat).1
    = Normal h
    /\ Expected.drops_one_at_a_time 3 (n_peers_history h).
Proof.
  destruct (@simulate Demo.steady [100; 200; 300] [0%nat] Demo.short_run
              0%nat).1 as [h|e] eqn:E.
  - exists h. split; [reflexivity|].
    exact (@peer_count_drops_one_at_a_time Demo.steady [100; 200; 300]
             [0%nat] Demo.short_run 0%nat h E).
  - vm_compute in E. discriminate.
Defined.

(** X26, witness. *)
Lemma scheduled_joins_are_grouped_by_epoch_witness :
  default [] (scheduled_joins_dict Demo.late_joiners !! 1%Z) = [50; 70].
Proof.
  exact (scheduled_joins_are_grouped_by_epoch Demo.late_joiners
           [(1%Z, 50); (0%Z, 20); (1%Z, 70)] 1%Z eq_refl).
Defined.

(** X28, witness. *)
Lemma smooth_parameter2_divides_by_zero_witness :
  Smoothing.compute_smooth_parameter2 (1 # 2) (3 # 10) 0 = ZeroDivisionError.
Proof.
  apply (smooth_parameter2_divides_by_zero (1 # 2) (3 # 10) 0).
  - reflexivity.
  - intros H. vm_compute in H. discriminate.
Defined.

(** X10, witness. *)
Lemma consensus_returns_a_position_witness :
  exists position,
    @consensus Demo.steady DESW Demo.five default_t 0%nat
    = (Normal position, 1%nat)
    /\ (position < length Demo.five)%nat.
Proof.
  apply (@consensus_returns_a_position Demo.steady DESW Demo.five default_t
           0%nat).
  - discriminate.
  - discriminate.
Defined.

(** X17, witness. *)
Lemma gini_distribution_is_non_negative_witness :
  exists stakes,
    Generators.generate_vector_with_gini 4 1000 (3 # 10) = Computed stakes
    /\ length stakes = Z.to_nat 4
    /\ Forall (Qle 0) stakes.
Proof.
  apply (gini_distribution_is_non_negative 4 1000 (3 # 10)).
  - lia.
  - unfold Qle; simpl; lia.
  - split; unfold Qle; simpl; lia.
Defined.

(** X19, witness. *)
Lemma random_distribution_is_non_negative_witness :
  exists stakes,
    @Generators.generate_vector_random Demo.steady 3 100 0%nat
    = (Computed stakes, (0 + (Z.to_nat 3 - 1))%nat)
    /\ length stakes = Z.to_nat 3
    /\ Forall (Qle 0) stakes.
Proof.
  apply (@random_distribution_is_non_negative Demo.steady 3 100 0%nat).
  - lia.
  - unfold Qle; simpl; lia.
Defined.

(** X20, witness. *)
Lemma generate_peers_returns_n_peers_witness :
  exists stakes g',
    @Generators.generate_peers Demo.steady 4 1000 RANDOM_DISTRIBUTION (-1)
      0%nat
    = (Computed stakes, g')
    /\ length stakes = Z.to_nat 4.
Proof.
  apply (@generate_peers_returns_n_peers Demo.steady 4 1000
           RANDOM_DISTRIBUTION (-1) 0%nat).
  lia.
Defined.

(** X21, witness. *)
Lemma joins_copy_existing_stakes_witness :
  Forall (fun stake => stake ∈ Demo.five)
    (@try_to_join Demo.steady 5 Demo.five [] 1 NEW_MAX 0 0%nat).1.2.1.
Proof.
  apply (@joins_copy_existing_stakes Demo.steady 5 Demo.five [] 1 NEW_MAX 0
           0%nat).
  - discriminate.
  - discriminate.
Defined.

(** X24, witness. *)
Lemma quiet_run_lowers_no_stake_witness :
  exists h final,
    @simulate Demo.steady [1; 1] [] Demo.quiet 0%nat = (Normal h, final)
    /\ Forall2 Qle [1; 1] (Simulator.stakes final).
Proof.
  destruct (@simulate Demo.steady [1; 1] [] Demo.quiet 0%nat)
    as [[h|e] final] eqn:E.
  - exists h, final. split; [reflexivity|].
    apply (@quiet_run_lowers_no_stake Demo.steady [1; 1] Demo.quiet 0%nat
             h final).
    + repeat split; reflexivity.
    + exact steady_draws_positive.
    + unfold Qle; simpl; lia.
    + exact E.
  - vm_compute in E. discriminate.
Defined.

(** X27, witness. *)
Lemma benchmark_copy_keeps_listed_fields_witness :
  exists copy,
    Benchmark.test_params DESW Demo.long_step = Normal copy
    /\ proof_of_stake copy = DESW
    /\ (n_epochs copy, initial_stake_volume copy, initial_distribution copy,
        n_peers copy, n_corrupted copy)
       = (3%Z, 10000, GINI, 1000%Z, 20%Z)
    /\ (p_fail copy, p_join copy, p_leave copy, join_amount copy,
        penalty_percentage copy, reward copy)
       = (1 # 2, 0, 0, NEW_RANDOM, 1 # 2, 10)
    /\ (initial_gini copy, θ copy, s_type copy, k copy, scheduled_joins copy)
       = (3 # 10, 3 # 10, LINEAR, 1 # 1000, None).
Proof.
  apply (benchmark_copy_keeps_listed_fields DESW Demo.long_step).
  reflexivity.
Defined.

(** X29, witness. *)
Lemma smooth_parameter2_stays_in_unit_interval_witness :
  exists v,
    Smoothing.compute_smooth_parameter2 (3 # 10) (3 # 10) (1 # 10)
    = Computed v
    /\ 0 <= v <= 1 /\ (3 # 10 == 3 # 10 -> v == 1 # 2).
Proof.
  destruct (Smoothing.compute_smooth_parameter2 (3 # 10) (3 # 10) (1 # 10))
    as [v| |e] eqn:E.
  - exists v. split; [reflexivity|].
    exact (smooth_parameter2_stays_in_unit_interval (3 # 10) (3 # 10)
             (1 # 10) v E).
  - vm_compute in E. discriminate.
  - vm_compute in E. discriminate.
Defined.

(** X30, witness. *)
Lemma analysis_gini_of_one_entry_witness :
  ChainAnalysis.calculate_gini_coefficient [] = Raised IndexError
  /\ exists v, ChainAnalysis.calculate_gini_coefficient [7] = Normal v
               /\ v == 1 /\ gini [7] == 0.
Proof.
  apply (analysis_gini_of_one_entry 7).
  intros H. vm_compute in H. discriminate.
Defined.

End Examples.
